(** * monetz-api: the user service (authentication core)

    A shallow embedding of [user/service.go], [user/api.go] and of the
    collaborators they call (the [users] table, the [auth] topic, the
    [security] token package, [crypto/sha1], [regexp]), followed by the
    properties of the authentication core. *)

From Stdlib Require Import ZArith Lia Bool Ascii String List.
From stdpp Require Import base option list strings gmap.

Local Open Scope string_scope.
Local Open Scope list_scope.
Local Open Scope Z_scope.

(** ** crypto/sha1 and [fmt.Sprintf("%x", ...)]

    Both [Service.ValidatePassword] and [Service.CreateUser] hash the
    plaintext with [sha1.New(); h.Write([]byte(password)); h.Sum(nil)] and
    print the 20 bytes in lower-case hexadecimal.  32-bit words are [Z]
    with the wrap-around written out. *)
Module Sha1.

Definition mask32 : Z := 0xFFFFFFFF.

Definition add32 (a b : Z) : Z := Z.land (a + b) mask32.

Definition not32 (a : Z) : Z := Z.lxor a mask32.

Definition rotl32 (n : Z) (x : Z) : Z :=
  Z.land (Z.lor (Z.shiftl x n) (Z.shiftr x (32 - n))) mask32.

(** [[]byte(password)] *)
Definition bytes_of_string (s : string) : list Z :=
  List.map (fun c => Z.of_N (N_of_ascii c)) (list_ascii_of_string s).

(** Big-endian 64-bit encoding of the message length in bits. *)
Definition be64 (n : Z) : list Z :=
  List.map (fun i => Z.land (Z.shiftr n (8 * i)) 0xFF) [7; 6; 5; 4; 3; 2; 1; 0].

Definition pad (msg : list Z) : list Z :=
  let len := Z.of_nat (List.length msg) in
  msg ++ [0x80] ++ List.repeat 0 (Z.to_nat ((55 - len) mod 64)) ++ be64 (8 * len).

Definition be32 (b0 b1 b2 b3 : Z) : Z :=
  Z.lor (Z.lor (Z.shiftl b0 24) (Z.shiftl b1 16)) (Z.lor (Z.shiftl b2 8) b3).

(** The sixteen big-endian words of one 64-byte block. *)
Fixpoint words_of_block (bs : list Z) : list Z :=
  match bs with
  | b0 :: b1 :: b2 :: b3 :: rest => be32 b0 b1 b2 b3 :: words_of_block rest
  | _ => []
  end.

(** Message schedule, kept most recent word first: [ws] holds
    w[t-1], w[t-2], ...; the next word is
    rotl1 (w[t-3] xor w[t-8] xor w[t-14] xor w[t-16]). *)
Fixpoint expand (n : nat) (ws : list Z) : list Z :=
  match n with
  | O => ws
  | S n' =>
      let w := rotl32 1 (Z.lxor (Z.lxor (List.nth 2 ws 0) (List.nth 7 ws 0))
                                (Z.lxor (List.nth 13 ws 0) (List.nth 15 ws 0))) in
      expand n' (w :: ws)
  end.

Definition schedule (block : list Z) : list Z :=
  List.rev (expand 64 (List.rev (words_of_block block))).

Definition round_f (t : Z) (b c d : Z) : Z :=
  if t <? 20 then Z.lor (Z.land b c) (Z.land (not32 b) d)
  else if t <? 40 then Z.lxor (Z.lxor b c) d
  else if t <? 60 then Z.lor (Z.lor (Z.land b c) (Z.land b d)) (Z.land c d)
  else Z.lxor (Z.lxor b c) d.

Definition round_k (t : Z) : Z :=
  if t <? 20 then 0x5A827999
  else if t <? 40 then 0x6ED9EBA1
  else if t <? 60 then 0x8F1BBCDC
  else 0xCA62C1D6.

Definition state : Type := Z * Z * Z * Z * Z.

Definition init : state :=
  (0x67452301, 0xEFCDAB89, 0x98BADCFE, 0x10325476, 0xC3D2E1F0).

Fixpoint rounds (t : Z) (ws : list Z) (s : state) : state :=
  match ws with
  | [] => s
  | w :: ws' =>
      let '(a, b, c, d, e) := s in
      let tmp := add32 (add32 (add32 (add32 (rotl32 5 a) (round_f t b c d)) e) w)
                       (round_k t) in
      rounds (t + 1) ws' (tmp, a, rotl32 30 b, c, d)
  end.

Definition compress (s : state) (block : list Z) : state :=
  let '(h0, h1, h2, h3, h4) := s in
  let '(a, b, c, d, e) := rounds 0 (schedule block) s in
  (add32 h0 a, add32 h1 b, add32 h2 c, add32 h3 d, add32 h4 e).

Fixpoint blocks (n : nat) (bs : list Z) (s : state) : state :=
  match n with
  | O => s
  | S n' => blocks n' (List.skipn 64 bs) (compress s (List.firstn 64 bs))
  end.

Definition sum (msg : list Z) : state :=
  let p := pad msg in
  blocks (List.length p / 64)%nat p init.

Definition hexdigit (n : Z) : ascii :=
  List.nth (Z.to_nat n)
    (list_ascii_of_string "0123456789abcdef") "0"%char.

(** Eight lower-case hexadecimal digits of a 32-bit word. *)
Definition hex32 (w : Z) (k : string) : string :=
  String (hexdigit (Z.land (Z.shiftr w 28) 15))
 (String (hexdigit (Z.land (Z.shiftr w 24) 15))
 (String (hexdigit (Z.land (Z.shiftr w 20) 15))
 (String (hexdigit (Z.land (Z.shiftr w 16) 15))
 (String (hexdigit (Z.land (Z.shiftr w 12) 15))
 (String (hexdigit (Z.land (Z.shiftr w 8) 15))
 (String (hexdigit (Z.land (Z.shiftr w 4) 15))
 (String (hexdigit (Z.land w 15)) k))))))).

Definition hex_of_state (s : state) : string :=
  let '(h0, h1, h2, h3, h4) := s in
  hex32 h0 (hex32 h1 (hex32 h2 (hex32 h3 (hex32 h4 EmptyString)))).

(** [fmt.Sprintf("%x", h.Sum(nil))] after [h.Write([]byte(password))]. *)
Definition hex (password : string) : string :=
  hex_of_state (sum (bytes_of_string password)).

End Sha1.

(** ** regexp

    [isValidEmail] compiles one pattern and calls [MatchString].  The
    pattern is kept as syntax; matching is by derivatives, one byte at a
    time (Go matches the classes of this pattern on bytes: every class is
    ASCII, so no byte of a multi-byte rune belongs to one). *)
Module Regexp.

Inductive re : Type :=
| Void : re                               (* matches nothing *)
| Eps : re                                (* the empty string *)
| Class : list (ascii * ascii) -> re      (* [lo-hi...] *)
| Cat : re -> re -> re
| Alt : re -> re -> re
| Star : re -> re.

(** [r+] *)
Definition Plus (r : re) : re := Cat r (Star r).

(** [r{n,}] *)
Fixpoint AtLeast (n : nat) (r : re) : re :=
  match n with
  | O => Star r
  | S n' => Cat r (AtLeast n' r)
  end.

(** A literal byte. *)
Definition Lit (c : ascii) : re := Class [(c, c)].

Definition in_range (c : ascii) (rg : ascii * ascii) : bool :=
  (N_of_ascii (fst rg) <=? N_of_ascii c)%N && (N_of_ascii c <=? N_of_ascii (snd rg))%N.

Definition in_class (cls : list (ascii * ascii)) (c : ascii) : bool :=
  List.existsb (in_range c) cls.

Fixpoint nullable (r : re) : bool :=
  match r with
  | Void => false
  | Eps => true
  | Class _ => false
  | Cat r1 r2 => nullable r1 && nullable r2
  | Alt r1 r2 => nullable r1 || nullable r2
  | Star _ => true
  end.

Fixpoint deriv (c : ascii) (r : re) : re :=
  match r with
  | Void => Void
  | Eps => Void
  | Class cls => if in_class cls c then Eps else Void
  | Cat r1 r2 =>
      if nullable r1 then Alt (Cat (deriv c r1) r2) (deriv c r2)
      else Cat (deriv c r1) r2
  | Alt r1 r2 => Alt (deriv c r1) (deriv c r2)
  | Star r1 => Cat (deriv c r1) (Star r1)
  end.

(** [MatchString] of the pattern [^r$]: the whole text matches [r]. *)
Fixpoint MatchString (r : re) (s : string) : bool :=
  match s with
  | EmptyString => nullable r
  | String c s' => MatchString (deriv c r) s'
  end.

(** The language of a pattern. *)
Inductive Matches : re -> string -> Prop :=
| MEps : Matches Eps EmptyString
| MClass cls c : in_class cls c = true -> Matches (Class cls) (String c EmptyString)
| MCat r1 r2 s1 s2 : Matches r1 s1 -> Matches r2 s2 -> Matches (Cat r1 r2) (s1 +:+ s2)
| MAltL r1 r2 s : Matches r1 s -> Matches (Alt r1 r2) s
| MAltR r1 r2 s : Matches r2 s -> Matches (Alt r1 r2) s
| MStar0 r : Matches (Star r) EmptyString
| MStarS r s1 s2 : Matches r s1 -> Matches (Star r) s2 -> Matches (Star r) (s1 +:+ s2).

(** Every byte of [s] satisfies [p]. *)
Fixpoint all_bytes (p : ascii -> bool) (s : string) : bool :=
  match s with
  | EmptyString => true
  | String c s' => p c && all_bytes p s'
  end.

End Regexp.

(** ** encore.dev/beta/errs: error codes and the error builder *)
Module errs.

Inductive ErrCode : Type :=
| OK | Canceled | Unknown | InvalidArgument | DeadlineExceeded | NotFound
| AlreadyExists | PermissionDenied | ResourceExhausted | FailedPrecondition
| Aborted | OutOfRange | Unimplemented | Internal | Unavailable | DataLoss
| Unauthenticated.

Record Error : Type := mkError {
  Code : ErrCode;
  Message : string;
  Meta : list (string * string)
}.

(** [errs.B()] and its chained setters; [Err] builds the error value. *)
Definition B : Error := mkError Unknown "" [].

Definition WithMeta (k v : string) (b : Error) : Error :=
  mkError (Code b) (Message b) (Meta b ++ [(k, v)]).

Definition WithCode (c : ErrCode) (b : Error) : Error :=
  mkError c (Message b) (Meta b).

Definition Msg (m : string) (b : Error) : Error :=
  mkError (Code b) m (Meta b).

Definition Err (b : Error) : Error := b.

End errs.

(** What a caller of an endpoint observes: the response, an [errs] error,
    or a crash of the handler (a Go run-time panic). *)
Inductive Result (A : Type) : Type :=
| Ok (a : A)
| Fail (e : errs.Error)
| Panic.

Arguments Ok {A} a.
Arguments Fail {A} e.
Arguments Panic {A}.

(** ** The data model *)

(** Modelled from the spec: the [User] struct is declared outside the given
    files; its fields are the five columns that [ValidateUser] scans into
    it (id, email, passwordHash, firstName, lastName in the data model). *)
Record User : Type := mkUser {
  u_ID : string;
  u_Email : string;
  u_Password : string;
  u_FirstName : string;
  u_LastName : string
}.

(** [AuthEvent] *)
Record AuthEvent : Type := mkAuthEvent { UserEmail : string }.

(** The shared state the service reaches: the rows of table [users], in
    insertion order, and the messages published on topic [auth]. *)
Record World : Type := mkWorld {
  users : list User;
  auth_topic : list AuthEvent
}.

(** What one call meets at its infrastructure boundaries: whether the
    store answers its query ([QueryRow]) and its statement ([Exec]),
    whether the topic accepts the message, the identifier [uuid.New()]
    draws, and the clock read when a token is issued. *)
Record Infra : Type := mkInfra {
  query_fails : bool;
  exec_fails : bool;
  publish_fails : bool;
  new_uuid : string;
  now : Z
}.

(** ** encore.dev/storage/sqldb on table [users] *)
Module sqldb.

Inductive SqlError : Type :=
| ErrNoRows            (* Scan of an empty result *)
| UniqueViolation      (* a uniqueness constraint rejected the row *)
| Unavailable.         (* the store did not answer *)

(** The condition [where email = $1] on a row. *)
Definition by_email (email : string) (u : User) : bool :=
  String.eqb (u_Email u) email.

(** [select id, email, password, first_name, last_name from users
     where email = $1], scanned into a [User]: the first matching row. *)
Definition QueryRow_user (env : Infra) (db : list User) (email : string)
  : SqlError + User :=
  if query_fails env then inl Unavailable
  else match List.find (by_email email) db with
       | Some u => inr u
       | None => inl ErrNoRows
       end.

(** [select exists(select 1 from users where email = $1)], scanned into
    a [bool]. *)
Definition QueryRow_exists (env : Infra) (db : list User) (email : string)
  : SqlError + bool :=
  if query_fails env then inl Unavailable
  else inr (List.existsb (by_email email) db).

(** Modelled from the spec: the migrations that declare table [users] are
    not among the given files; the table is keyed by the generated
    identifier and has a uniqueness constraint on [email], checked by the
    store inside the insert. *)
Definition violates_unique (db : list User) (row : User) : bool :=
  List.existsb (fun u => String.eqb (u_ID u) (u_ID row)
                         || String.eqb (u_Email u) (u_Email row)) db.

(** [insert into users (id, email, password, first_name, last_name)
     values ($1, $2, $3, $4, $5)]. *)
Definition Exec_insert (env : Infra) (db : list User) (row : User)
  : option SqlError * list User :=
  if exec_fails env then (Some Unavailable, db)
  else if violates_unique db row then (Some UniqueViolation, db)
  else (None, db ++ [row]).

End sqldb.

(** ** encore.dev/pubsub: [AuthEvents.Publish] *)
Module pubsub.

Inductive PublishError : Type := TopicUnavailable.

Definition Publish (env : Infra) (topic : list AuthEvent) (ev : AuthEvent)
  : option PublishError * list AuthEvent :=
  if publish_fails env then (Some TopicUnavailable, topic)
  else (None, topic ++ [ev]).

End pubsub.

(** ** user/api.go: [isValidEmail] *)

Definition cls_local : list (ascii * ascii) :=
  [("a", "z"); ("A", "Z"); ("0", "9"); (".", "."); ("_", "_"); ("%", "%");
   ("+", "+"); ("-", "-")]%char.

Definition cls_domain : list (ascii * ascii) :=
  [("a", "z"); ("A", "Z"); ("0", "9"); (".", "."); ("-", "-")]%char.

Definition cls_alpha : list (ascii * ascii) :=
  [("a", "z"); ("A", "Z")]%char.

(** [^[a-zA-Z0-9._%+-]+@[a-zA-Z0-9.-]+\.[a-zA-Z]{2,}$] *)
Definition email_pattern : Regexp.re :=
  Regexp.Cat (Regexp.Plus (Regexp.Class cls_local))
 (Regexp.Cat (Regexp.Lit "@")
 (Regexp.Cat (Regexp.Plus (Regexp.Class cls_domain))
 (Regexp.Cat (Regexp.Lit ".")
             (Regexp.AtLeast 2 (Regexp.Class cls_alpha))))).

Definition isValidEmail (email : string) : bool :=
  let re := email_pattern in
  Regexp.MatchString re email.

(** ** encore.app/user/security: the token package *)
Module security.

(** A value stored in [jwt.MapClaims], a [map[string]interface{}]. *)
Inductive ClaimValue : Type :=
| CString (s : string)
| CNumber (n : Z)
| CBool (b : bool)
| CNull.

(** Why a token was not accepted. *)
Inductive TokenError : Type := Invalid | Expired.

(** Modelled from the spec: package [security] is not among the given
    files.  Its three functions are taken with the signatures the callers
    in [api.go] use: [NewToken] issues a token for an email at the time
    read from the clock or fails to sign, [ParseToken] verifies signature
    and expiry at the given time, [GetClaims] returns the claim map of a
    parsed token.  [lifetime] is the validity period of an issued
    token. *)
Class Package : Type := {
  Token : Type;
  NewToken : Z -> string -> option string;
  ParseToken : Z -> string -> TokenError + Token;
  GetClaims : Token -> option (gmap string ClaimValue);
  lifetime : Z
}.

(** Modelled from the spec: the round trip of the token service,
    "Verify(Issue(email)).email == email, for any valid email string,
    until expiry". *)
Class RoundTrip (P : Package) : Prop := {
  lifetime_pos : 0 < lifetime;
  verify_issue : forall (t0 t1 : Z) (email tok : string),
    isValidEmail email = true ->
    NewToken t0 email = Some tok ->
    t0 <= t1 < t0 + lifetime ->
    exists (t : Token) (m : gmap string ClaimValue),
      ParseToken t1 tok = inr t /\ GetClaims t = Some m /\
      m !! "email" = Some (CString email)
}.

(** *** A reference token package

    A token is the 40 hexadecimal digits of a keyed digest of the
    payload, followed by the payload: the expiry as eight little-endian
    bytes, then the subject.  It serves as an instance of the contract
    above. *)

Fixpoint str_take (n : nat) (s : string) : string :=
  match n, s with
  | S n', String c s' => String c (str_take n' s')
  | _, _ => EmptyString
  end.

Fixpoint str_drop (n : nat) (s : string) : string :=
  match n, s with
  | S n', String _ s' => str_drop n' s'
  | _, _ => s
  end.

Fixpoint enc_le (n : nat) (z : Z) : string :=
  match n with
  | O => EmptyString
  | S n' => String (ascii_of_N (Z.to_N (z mod 256))) (enc_le n' (z / 256))
  end.

Fixpoint dec_le (s : string) : Z :=
  match s with
  | EmptyString => 0
  | String c s' => Z.of_N (N_of_ascii c) + 256 * dec_le s'
  end.

Definition sign (key payload : string) : string :=
  Sha1.hex (key +:+ payload) +:+ payload.

Record RefToken : Type := mkRefToken { claims : gmap string ClaimValue }.

Section Reference.
(** The process-wide signing key, the name of the subject claim and the
    validity period. *)
Variables (key subject : string) (period : Z).

Definition ref_NewToken (t0 : Z) (email : string) : option string :=
  let exp := t0 + period in
  if String.eqb key "" then None
  else if (exp <? 0) || (2 ^ 64 <=? exp) then None
  else Some (sign key (enc_le 8 exp +:+ email)).

Definition ref_ParseToken (t1 : Z) (tok : string) : TokenError + RefToken :=
  let sig := str_take 40 tok in
  let payload := str_drop 40 tok in
  if (String.length tok <? 48)%nat then inl Invalid
  else if negb (String.eqb sig (Sha1.hex (key +:+ payload))) then inl Invalid
  else
    let exp := dec_le (str_take 8 payload) in
    if exp <=? t1 then inl Expired
    else inr (mkRefToken (<[subject := CString (str_drop 8 payload)]>
                            {["exp" := CNumber exp]})).

Definition ref_GetClaims (t : RefToken) : option (gmap string ClaimValue) :=
  Some (claims t).

Definition Reference : Package :=
  {| Token := RefToken;
     NewToken := ref_NewToken;
     ParseToken := ref_ParseToken;
     GetClaims := ref_GetClaims;
     lifetime := period |}.
End Reference.

End security.

(** ** user/service.go *)

(** A Go [error] built by [fmt.Errorf], with the wrapped cause if any. *)
Inductive error : Type :=
| Errorf (msg : string)
| Errorf_w (msg : string) (cause : sqldb.SqlError).

(** [UseCase], the user logic interface.  The [users] table is passed in
    and, by the one method that writes it, handed back. *)
Class UseCase : Type := {
  ValidateUser : Infra -> list User -> string -> string -> option error;
  ValidatePassword : Infra -> User -> string -> option error;
  CreateUser : Infra -> list User -> string -> string -> string -> string ->
               option error * list User;
  UserExists : Infra -> list User -> string -> bool * option error
}.

(** The methods of [*Service]. *)
Module Service.

Definition ValidatePassword (ctx : Infra) (u : User) (password : string)
  : option error :=
  let p := Sha1.hex password in
  if negb (String.eqb p (u_Password u)) then Some (Errorf "invalid password")
  else None.

Definition ValidateUser (ctx : Infra) (db : list User) (email password : string)
  : option error :=
  match sqldb.QueryRow_user ctx db email with
  | inl err => Some (Errorf_w "invalid user %w" err)
  | inr u =>
      match ValidatePassword ctx u password with
      | Some _ => Some (Errorf "invalid user")
      | None => None
      end
  end.

Definition CreateUser (ctx : Infra) (db : list User)
    (email password firstName lastName : string) : option error * list User :=
  let hashedPassword := Sha1.hex password in
  let userID := new_uuid ctx in
  match sqldb.Exec_insert ctx db
          (mkUser userID email hashedPassword firstName lastName) with
  | (Some err, db') => (Some (Errorf_w "could not create user: %w" err), db')
  | (None, db') => (None, db')
  end.

Definition UserExists (ctx : Infra) (db : list User) (email : string)
  : bool * option error :=
  match sqldb.QueryRow_exists ctx db email with
  | inl err => (false, Some (Errorf_w "could not check if user exists: %w" err))
  | inr exists_ => (exists_, None)
  end.

End Service.

(** [NewService]: the implementation of [UseCase] that [initAPI] installs. *)
#[export] Instance NewService : UseCase :=
  {| ValidateUser := Service.ValidateUser;
     ValidatePassword := Service.ValidatePassword;
     CreateUser := Service.CreateUser;
     UserExists := Service.UserExists |}.

(** ** user/api.go *)
Module API.

Record AuthParams : Type := mkAuthParams {
  ap_Email : string;
  ap_Password : string
}.

Record AuthResponse : Type := mkAuthResponse { ar_Token : string }.

Record ValidateTokenParams : Type := mkValidateTokenParams { vp_Token : string }.

Record ValidateTokenResponse : Type := mkValidateTokenResponse { vr_Email : string }.

Record CreateUserParams : Type := mkCreateUserParams {
  cp_Email : string;
  cp_Password : string;
  cp_FirstName : string;
  cp_LastName : string
}.

Record CreateUserResponse : Type := mkCreateUserResponse { cr_Token : string }.

(** [eb.Code(c).Msg(m).Err()] *)
Definition fail_with {A : Type} (eb : errs.Error) (c : errs.ErrCode) (m : string)
  : Result A :=
  Fail (errs.Err (errs.Msg m (errs.WithCode c eb))).

Section Endpoints.
(** The [Service] field of the [API] struct and the token package. *)
Context {a : UseCase} {sec : security.Package}.

Definition Auth (ctx : Infra) (w : World) (p : AuthParams)
  : Result AuthResponse * World :=
  let eb := errs.WithMeta "auth" (ap_Email p) errs.B in
  match @ValidateUser a ctx (users w) (ap_Email p) (ap_Password p) with
  | Some _ => (fail_with eb errs.Unauthenticated "invalid credentials", w)
  | None =>
      match security.NewToken (now ctx) (ap_Email p) with
      | None => (fail_with eb errs.Internal "internal error", w)
      | Some token =>
          match pubsub.Publish ctx (auth_topic w) (mkAuthEvent (ap_Email p)) with
          | (Some _, topic) =>
              (fail_with eb errs.Internal "internal error", mkWorld (users w) topic)
          | (None, topic) =>
              (Ok (mkAuthResponse token), mkWorld (users w) topic)
          end
      end
  end.

Definition ValidateToken (ctx : Infra) (p : ValidateTokenParams)
  : Result ValidateTokenResponse :=
  let eb := errs.WithMeta "validate_token" (vp_Token p) errs.B in
  match security.ParseToken (now ctx) (vp_Token p) with
  | inl _ => fail_with eb errs.Internal "internal error"
  | inr t =>
      match security.GetClaims t with
      | None => fail_with eb errs.Internal "internal error"
      | Some tData =>
          (* tData["email"].(string): a missing or non-string value panics *)
          match tData !! "email" with
          | Some (security.CString email) => Ok (mkValidateTokenResponse email)
          | _ => Panic
          end
      end
  end.

Definition CreateUser (ctx : Infra) (w : World) (p : CreateUserParams)
  : Result CreateUserResponse * World :=
  let eb := errs.WithMeta "create_user" (cp_Email p) errs.B in
  if negb (isValidEmail (cp_Email p)) then
    (fail_with eb errs.InvalidArgument "invalid email format", w)
  else
    match @UserExists a ctx (users w) (cp_Email p) with
    | (_, Some _) => (fail_with eb errs.Internal "internal error", w)
    | (true, None) => (fail_with eb errs.AlreadyExists "email already exists", w)
    | (false, None) =>
        match @CreateUser a ctx (users w) (cp_Email p) (cp_Password p)
                (cp_FirstName p) (cp_LastName p) with
        | (Some _, db) =>
            (fail_with eb errs.Internal "could not create user",
             mkWorld db (auth_topic w))
        | (None, db) =>
            match security.NewToken (now ctx) (cp_Email p) with
            | None => (fail_with eb errs.Internal "internal error",
                       mkWorld db (auth_topic w))
            | Some token =>
                match pubsub.Publish ctx (auth_topic w)
                        (mkAuthEvent (cp_Email p)) with
                | (Some _, topic) =>
                    (fail_with eb errs.Internal "internal error", mkWorld db topic)
                | (None, topic) =>
                    (Ok (mkCreateUserResponse token), mkWorld db topic)
                end
            end
        end
    end.
End Endpoints.

End API.

(** ** Concurrent calls of [CreateUser]

    A call is suspended only where it waits for the store or for the
    topic, and the store runs each statement atomically.  [step] runs one
    call from one such boundary to the next; two calls in flight advance
    in the order a schedule gives. *)
Module Concurrent.

Inductive CallState : Type :=
| AtProbe                              (* entered, nothing done yet *)
| AtInsert                             (* the probe answered: no such user *)
| AtPublish (token : string)           (* row inserted, token signed *)
| Returned (r : Result API.CreateUserResponse).

Section Steps.
Context {a : UseCase} {sec : security.Package}.

Definition step (ctx : Infra) (p : API.CreateUserParams) (st : CallState) (w : World)
  : CallState * World :=
  let eb := errs.WithMeta "create_user" (API.cp_Email p) errs.B in
  match st with
  | AtProbe =>
      if negb (isValidEmail (API.cp_Email p)) then
        (Returned (API.fail_with eb errs.InvalidArgument "invalid email format"), w)
      else
        match @UserExists a ctx (users w) (API.cp_Email p) with
        | (_, Some _) => (Returned (API.fail_with eb errs.Internal "internal error"), w)
        | (true, None) =>
            (Returned (API.fail_with eb errs.AlreadyExists "email already exists"), w)
        | (false, None) => (AtInsert, w)
        end
  | AtInsert =>
      match @CreateUser a ctx (users w) (API.cp_Email p) (API.cp_Password p)
              (API.cp_FirstName p) (API.cp_LastName p) with
      | (Some _, db) =>
          (Returned (API.fail_with eb errs.Internal "could not create user"),
           mkWorld db (auth_topic w))
      | (None, db) =>
          match security.NewToken (now ctx) (API.cp_Email p) with
          | None => (Returned (API.fail_with eb errs.Internal "internal error"),
                     mkWorld db (auth_topic w))
          | Some token => (AtPublish token, mkWorld db (auth_topic w))
          end
      end
  | AtPublish token =>
      match pubsub.Publish ctx (auth_topic w) (mkAuthEvent (API.cp_Email p)) with
      | (Some _, topic) =>
          (Returned (API.fail_with eb errs.Internal "internal error"),
           mkWorld (users w) topic)
      | (None, topic) =>
          (Returned (Ok (API.mkCreateUserResponse token)), mkWorld (users w) topic)
      end
  | Returned r => (Returned r, w)
  end.

(** One call run alone, boundary after boundary. *)
Fixpoint steps (n : nat) (ctx : Infra) (p : API.CreateUserParams)
    (st : CallState) (w : World) : CallState * World :=
  match n with
  | O => (st, w)
  | S n' => let '(st', w') := step ctx p st w in steps n' ctx p st' w'
  end.

(** Two calls in flight over one world. *)
Record Config : Type := mkConfig {
  call1 : CallState;
  call2 : CallState;
  world : World
}.

Inductive Turn : Type := First | Second.

Section Two.
Variables (ctx1 : Infra) (p1 : API.CreateUserParams)
          (ctx2 : Infra) (p2 : API.CreateUserParams).

Definition turn (c : Config) (t : Turn) : Config :=
  match t with
  | First =>
      let '(st, w) := step ctx1 p1 (call1 c) (world c) in
      mkConfig st (call2 c) w
  | Second =>
      let '(st, w) := step ctx2 p2 (call2 c) (world c) in
      mkConfig (call1 c) st w
  end.

Definition run (sched : list Turn) (c : Config) : Config :=
  List.fold_left turn sched c.
End Two.
End Steps.

(** The infrastructure of a call answers at every boundary. *)
Definition healthy (ctx : Infra) : bool :=
  negb (query_fails ctx) && negb (exec_fails ctx) && negb (publish_fails ctx).

(** How many turns a schedule gives to each call. *)
Fixpoint first_turns (sched : list Turn) : nat :=
  match sched with
  | [] => 0
  | First :: sched' => S (first_turns sched')
  | Second :: sched' => first_turns sched'
  end.

Fixpoint second_turns (sched : list Turn) : nat :=
  match sched with
  | [] => 0
  | First :: sched' => second_turns sched'
  | Second :: sched' => S (second_turns sched')
  end.

(** Boundaries a call still has to cross. *)
Definition remaining (st : CallState) : nat :=
  match st with
  | AtProbe => 3
  | AtInsert => 2
  | AtPublish _ => 1
  | Returned _ => 0
  end.

(** The two answers a sign-up for a taken email can get. *)
Definition already_exists (email : string) : Result API.CreateUserResponse :=
  Fail (errs.mkError errs.AlreadyExists "email already exists"
          [("create_user", email)]).

Definition could_not_create (email : string) : Result API.CreateUserResponse :=
  Fail (errs.mkError errs.Internal "could not create user"
          [("create_user", email)]).

(** The parts a call plays while two sign-ups for one email race: not yet
    past its insert, past its own successful insert, or behind the other
    call's insert. *)
Inductive early : CallState -> Prop :=
| early_probe : early AtProbe
| early_insert : early AtInsert.

Inductive winning (token : string) : CallState -> Prop :=
| winning_publish : winning token (AtPublish token)
| winning_returned :
    winning token (Returned (Ok (API.mkCreateUserResponse token))).

Inductive losing (email : string) : CallState -> Prop :=
| losing_probe : losing email AtProbe
| losing_insert : losing email AtInsert
| losing_exists : losing email (Returned (already_exists email))
| losing_conflict : losing email (Returned (could_not_create email)).

(** The configurations two such calls reach from a table [db0] without
    the email: no row added yet, or exactly the row of one of them. *)
Inductive Race (db0 : list User) (email : string) (row1 row2 : User)
    (tok1 tok2 : string) : Config -> Prop :=
| race_open c :
    users (world c) = db0 -> early (call1 c) -> early (call2 c) ->
    Race db0 email row1 row2 tok1 tok2 c
| race_first c :
    users (world c) = db0 ++ [row1] ->
    winning tok1 (call1 c) -> losing email (call2 c) ->
    Race db0 email row1 row2 tok1 tok2 c
| race_second c :
    users (world c) = db0 ++ [row2] ->
    losing email (call1 c) -> winning tok2 (call2 c) ->
    Race db0 email row1 row2 tok1 tok2 c.

End Concurrent.

(** The row [Service.CreateUser] inserts. *)
Definition new_row (ctx : Infra) (p : API.CreateUserParams) : User :=
  mkUser (new_uuid ctx) (API.cp_Email p) (Sha1.hex (API.cp_Password p))
         (API.cp_FirstName p) (API.cp_LastName p).

(** ** Histories of calls

    The endpoints that write the world, called one after the other. *)
Inductive Call : Type :=
| CallAuth (ctx : Infra) (p : API.AuthParams)
| CallCreateUser (ctx : Infra) (p : API.CreateUserParams).

Definition exec_call {a : UseCase} {sec : security.Package} (w : World) (c : Call)
  : World :=
  match c with
  | CallAuth ctx p => snd (API.Auth ctx w p)
  | CallCreateUser ctx p => snd (API.CreateUser ctx w p)
  end.

Definition exec_calls {a : UseCase} {sec : security.Package}
    (cs : list Call) (w : World) : World :=
  List.fold_left exec_call cs w.

(** ** The shape of an accepted email, in the words of the specification

    "local-part [@] domain with a top-level label of at least 2 letters":
    a non-empty local part over letters, digits and [._%+-], an [@], a
    non-empty domain over letters, digits and [.-], a dot, and a label of
    two or more letters. *)
Definition EmailShape (email : string) : Prop :=
  exists local domain tld : string,
    email = local +:+ "@" +:+ domain +:+ "." +:+ tld /\
    local <> "" /\
    Regexp.all_bytes (Regexp.in_class cls_local) local = true /\
    domain <> "" /\
    Regexp.all_bytes (Regexp.in_class cls_domain) domain = true /\
    (2 <= String.length tld)%nat /\
    Regexp.all_bytes (Regexp.in_class cls_alpha) tld = true.

(** ** authentication/handler.go *)
Module authentication.

(** [Data], the auth data handed to the protected endpoints. *)
Record Data : Type := mkData { d_Email : string }.

(** [AuthHandler]: the [auth.UID] is the string of a freshly drawn UUID.
    The call of [user.ValidateToken] is an ordinary call: a panic in it
    unwinds through the handler. *)
Definition AuthHandler {sec : security.Package} (ctx : Infra) (token : string)
  : Result (string * Data) :=
  if String.eqb token "" then
    Fail (errs.mkError errs.Unauthenticated "invalid token" [])
  else
    match API.ValidateToken ctx (API.mkValidateTokenParams token) with
    | Fail _ => Fail (errs.mkError errs.Unauthenticated "invalid token" [])
    | Panic => Panic
    | Ok resp => Ok (new_uuid ctx, mkData (API.vr_Email resp))
    end.

End authentication.

(** ** Measures used by the statements below *)

(** How many rows of the table carry an email. *)
Definition email_count (email : string) (db : list User) : nat :=
  List.length (List.filter (sqldb.by_email email) db).

(** A lower-case hexadecimal digit. *)
Definition is_lower_hex (c : ascii) : bool :=
  Regexp.in_class [("0", "9"); ("a", "f")]%char c.

(** How many times a byte occurs in a string. *)
Fixpoint occurrences (c : ascii) (s : string) : nat :=
  match s with
  | EmptyString => 0
  | String c' s' => (if Ascii.eqb c' c then 1 else 0) + occurrences c s'
  end.

(** The bytes an accepted email is made of: those of the local part and
    the separator. *)
Definition email_byte (c : ascii) : bool :=
  Regexp.in_class cls_local c || Ascii.eqb c "@".

(** Whether a call returned its response. *)
Definition call_succeeded {A : Type} (r : Result A) : bool :=
  match r with
  | Ok _ => true
  | _ => false
  end.

(** ** Scenarios

    Concrete worlds, callers and infrastructure used by the examples. *)
Definition sec_ref : security.Package :=
  security.Reference "signing-key" "email" 3600.

(** No signing key configured: issuing a token fails. *)
Definition sec_nokey : security.Package :=
  security.Reference "" "email" 3600.

Definition ctx_ok : Infra :=
  mkInfra false false false "7c9e6679-7425-40de-944b-e07fc1f90ae7" 1700000000.

Definition ctx_ok' : Infra :=
  mkInfra false false false "16fd2706-8baf-433b-82eb-8c7fada847da" 1700000060.

Definition ctx_query_down : Infra :=
  mkInfra true false false "16fd2706-8baf-433b-82eb-8c7fada847da" 1700000060.

Definition ctx_exec_down : Infra :=
  mkInfra false true false "16fd2706-8baf-433b-82eb-8c7fada847da" 1700000060.

Definition ctx_publish_down : Infra :=
  mkInfra false false true "16fd2706-8baf-433b-82eb-8c7fada847da" 1700000060.

Definition w_empty : World := mkWorld [] [].

Definition signup_u : API.CreateUserParams :=
  API.mkCreateUserParams "u@x.com" "pw" "A" "B".

Definition signup_v : API.CreateUserParams :=
  API.mkCreateUserParams "v@y.org" "pw" "C" "D".

Definition login_u : API.AuthParams := API.mkAuthParams "u@x.com" "pw".

(** The world after [signup_u] went through under [ctx_ok]. *)
Definition w_u : World :=
  mkWorld [mkUser "7c9e6679-7425-40de-944b-e07fc1f90ae7" "u@x.com"
             "1a91d62f7ca67399625a4368a6ab5d4a3baa6073" "A" "B"]
          [mkAuthEvent "u@x.com"].

(** * Properties *)

(** ** The hash agrees with the published SHA-1 test vectors *)

Example sha1_empty : Sha1.hex "" = "da39a3ee5e6b4b0d3255bfef95601890afd80709".
Proof. vm_compute. reflexivity. Qed.

Example sha1_abc : Sha1.hex "abc" = "a9993e364706816aba3e25717850c26c9cd0d89d".
Proof. vm_compute. reflexivity. Qed.

Example sha1_two_blocks :
  Sha1.hex "abcdbcdecdefdefgefghfghighijhijkijkljklmklmnlmnomnopnopq"
  = "84983e441c3bd26ebaae4aa1f95129e5e54670f1".
Proof. vm_compute. reflexivity. Qed.

Lemma sha1_hex_length (password : string) :
  String.length (Sha1.hex password) = 40%nat.
Proof.
  unfold Sha1.hex, Sha1.hex_of_state.
  destruct (Sha1.sum _) as [[[[h0 h1] h2] h3] h4]. reflexivity.
Qed.

(** ** Strings *)

#[local] Arguments String.append !s1 s2 : simpl nomatch.

Lemma append_eq_empty (s1 s2 : string) : s1 +:+ s2 = "" -> s1 = "" /\ s2 = "".
Proof. destruct s1; simpl; [tauto | discriminate]. Qed.

Lemma length_append (s1 s2 : string) :
  String.length (s1 +:+ s2) = (String.length s1 + String.length s2)%nat.
Proof. induction s1 as [|c s1 IH]; simpl; [reflexivity | now rewrite IH]. Qed.

(** ** The matcher decides the language of the pattern *)
Section RegexpFacts.
Import Regexp.

Lemma nullable_spec (r : re) : nullable r = true <-> Matches r "".
Proof.
  split.
  - induction r; simpl; intros H; try discriminate.
    + constructor.
    + apply andb_true_iff in H as [H1 H2].
      change "" with ("" +:+ ""). constructor; auto.
    + apply orb_true_iff in H as [H1 | H2]; [apply MAltL | apply MAltR]; auto.
    + constructor.
  - intros H. remember "" as s eqn:Hs. induction H; simpl; try reflexivity.
    + discriminate.
    + apply append_eq_empty in Hs as [-> ->].
      rewrite IHMatches1, IHMatches2; reflexivity.
    + rewrite IHMatches; auto.
    + rewrite IHMatches; auto using orb_true_r.
Qed.

Lemma deriv_complete (c : ascii) (r : re) (s : string) :
  Matches r (String c s) -> Matches (deriv c r) s.
Proof.
  intros H. remember (String c s) as s0 eqn:Hs0.
  revert c s Hs0.
  induction H as [ | cls c0 Hc | r1 r2 s1 s2 H1 IH1 H2 IH2 | r1 r2 s0 H IH
                 | r1 r2 s0 H IH | r | r s1 s2 H1 IH1 H2 IH2 ];
    intros c s Hs0; simpl.
  - discriminate.
  - injection Hs0 as -> <-. rewrite Hc. constructor.
  - destruct s1 as [|c1 s1'].
    + simpl in Hs0. subst s2.
      apply nullable_spec in H1. rewrite H1. apply MAltR. now apply IH2.
    + simpl in Hs0. injection Hs0 as -> <-.
      specialize (IH1 _ _ eq_refl).
      destruct (nullable r1); [apply MAltL |]; now constructor.
  - apply MAltL. now apply IH.
  - apply MAltR. now apply IH.
  - discriminate.
  - destruct s1 as [|c1 s1'].
    + simpl in Hs0. now apply IH2.
    + simpl in Hs0. injection Hs0 as -> <-.
      constructor; [now apply IH1 | assumption].
Qed.

Lemma deriv_sound (c : ascii) (r : re) :
  forall s, Matches (deriv c r) s -> Matches r (String c s).
Proof.
  induction r as [ | | cls | r1 IH1 r2 IH2 | r1 IH1 r2 IH2 | r1 IH1 ];
    simpl; intros s H.
  - inversion H.
  - inversion H.
  - destruct (in_class cls c) eqn:Hc; inversion H; subst. now constructor.
  - destruct (nullable r1) eqn:Hn.
    + inversion H as [ | | | ? ? ? HL | ? ? ? HR | | ]; subst.
      * inversion HL as [ | | ? ? s1 s2 Ha Hb | | | | ]; subst.
        change (String c (s1 +:+ s2)) with (String c s1 +:+ s2).
        constructor; auto.
      * change (String c s) with ("" +:+ String c s).
        constructor; [now apply nullable_spec | auto].
    + inversion H as [ | | ? ? s1 s2 Ha Hb | | | | ]; subst.
      change (String c (s1 +:+ s2)) with (String c s1 +:+ s2).
      constructor; auto.
  - inversion H; subst; [apply MAltL | apply MAltR]; auto.
  - inversion H as [ | | ? ? s1 s2 Ha Hb | | | | ]; subst.
    change (String c (s1 +:+ s2)) with (String c s1 +:+ s2).
    constructor; auto.
Qed.

Lemma MatchString_spec (s : string) :
  forall r, MatchString r s = true <-> Matches r s.
Proof.
  induction s as [|c s IH]; intros r; simpl.
  - apply nullable_spec.
  - rewrite IH. split; [apply deriv_sound | apply deriv_complete].
Qed.
End RegexpFacts.

(** ** The language of the email pattern *)
Section EmailFacts.
Import Regexp.

Lemma Matches_class (cls : list (ascii * ascii)) (s : string) :
  Matches (Class cls) s <-> exists c, s = String c "" /\ in_class cls c = true.
Proof.
  split.
  - intros H. inversion H; subst. eauto.
  - intros (c & -> & Hc). now constructor.
Qed.

Lemma Matches_cat (r1 r2 : re) (s : string) :
  Matches (Cat r1 r2) s <->
  exists s1 s2, s = s1 +:+ s2 /\ Matches r1 s1 /\ Matches r2 s2.
Proof.
  split.
  - intros H. inversion H; subst. eauto.
  - intros (s1 & s2 & -> & H1 & H2). now constructor.
Qed.

Lemma Matches_star_class (cls : list (ascii * ascii)) (s : string) :
  Matches (Star (Class cls)) s <-> all_bytes (in_class cls) s = true.
Proof.
  split.
  - intros H. remember (Star (Class cls)) as r eqn:Hr.
    induction H as [ | | | | | r0 | r0 s1 s2 H1 _ H2 IH2 ]; try discriminate.
    + reflexivity.
    + injection Hr as ->. apply Matches_class in H1 as (c & -> & Hc).
      simpl. rewrite Hc. now apply IH2.
  - induction s as [|c s IH]; simpl; intros H.
    + constructor.
    + apply andb_true_iff in H as [Hc Hs].
      change (String c s) with (String c "" +:+ s).
      constructor; [now constructor | auto].
Qed.

Lemma Matches_plus_class (cls : list (ascii * ascii)) (s : string) :
  Matches (Plus (Class cls)) s <->
  s <> "" /\ all_bytes (in_class cls) s = true.
Proof.
  unfold Plus. rewrite Matches_cat. split.
  - intros (s1 & s2 & -> & H1 & H2).
    apply Matches_class in H1 as (c & -> & Hc).
    apply Matches_star_class in H2. simpl. rewrite Hc, H2. split; [discriminate | reflexivity].
  - intros [Hne H]. destruct s as [|c s]; [congruence |].
    simpl in H. apply andb_true_iff in H as [Hc Hs].
    exists (String c ""), s. split; [reflexivity |].
    split; [now constructor | now apply Matches_star_class].
Qed.

Lemma Matches_atleast_class (cls : list (ascii * ascii)) (n : nat) :
  forall s, Matches (AtLeast n (Class cls)) s <->
            (n <= String.length s)%nat /\ all_bytes (in_class cls) s = true.
Proof.
  induction n as [|n IH]; intros s; simpl.
  - rewrite Matches_star_class. split; [intros H; split; [lia | exact H] | tauto].
  - rewrite Matches_cat. split.
    + intros (s1 & s2 & -> & H1 & H2).
      apply Matches_class in H1 as (c & -> & Hc).
      apply IH in H2 as [Hlen Hall]. simpl. rewrite Hc, Hall. split; [lia | reflexivity].
    + intros [Hlen H]. destruct s as [|c s]; simpl in Hlen; [lia |].
      simpl in H. apply andb_true_iff in H as [Hc Hs].
      exists (String c ""), s. split; [reflexivity |].
      split; [now constructor | apply IH; split; [lia | assumption]].
Qed.

Lemma Matches_lit (c : ascii) (s : string) :
  Matches (Lit c) s <-> s = String c "".
Proof.
  unfold Lit. rewrite Matches_class. split.
  - intros (c' & -> & Hc). f_equal.
    unfold in_class, in_range in Hc. simpl in Hc.
    rewrite orb_false_r in Hc. apply andb_true_iff in Hc as [H1 H2].
    apply N.leb_le in H1, H2.
    rewrite <- (ascii_N_embedding c'), <- (ascii_N_embedding c).
    f_equal. lia.
  - intros ->. exists c. split; [reflexivity |].
    unfold in_class, in_range. simpl. rewrite N.leb_refl. reflexivity.
Qed.

Lemma isValidEmail_shape (email : string) :
  isValidEmail email = true <-> EmailShape email.
Proof.
  unfold isValidEmail, email_pattern, EmailShape.
  rewrite MatchString_spec. split.
  - intros H.
    apply Matches_cat in H as (l & s1 & -> & Hl & H).
    apply Matches_cat in H as (at_ & s2 & -> & Hat & H).
    apply Matches_cat in H as (d & s3 & -> & Hd & H).
    apply Matches_cat in H as (dot & t & -> & Hdot & Ht).
    apply Matches_lit in Hat as ->. apply Matches_lit in Hdot as ->.
    apply Matches_plus_class in Hl as [? ?].
    apply Matches_plus_class in Hd as [? ?].
    apply Matches_atleast_class in Ht as [? ?].
    exists l, d, t. repeat split; assumption.
  - intros (l & d & t & -> & Hl1 & Hl2 & Hd1 & Hd2 & Ht1 & Ht2).
    apply Matches_cat. exists l, ("@" +:+ d +:+ "." +:+ t).
    split; [reflexivity |]. split; [now apply Matches_plus_class |].
    apply Matches_cat. exists "@", (d +:+ "." +:+ t).
    split; [reflexivity |]. split; [now apply Matches_lit |].
    apply Matches_cat. exists d, ("." +:+ t).
    split; [reflexivity |]. split; [now apply Matches_plus_class |].
    apply Matches_cat. exists ".", t.
    split; [reflexivity |]. split; [now apply Matches_lit |].
    now apply Matches_atleast_class.
Qed.
End EmailFacts.

(** ** The reference token package meets the round-trip contract *)
Section ReferenceFacts.
Import security.

Lemma str_take_append (s1 s2 : string) :
  str_take (String.length s1) (s1 +:+ s2) = s1.
Proof. induction s1 as [|c s1 IH]; simpl; [now destruct s2 | now rewrite IH]. Qed.

Lemma str_drop_append (s1 s2 : string) :
  str_drop (String.length s1) (s1 +:+ s2) = s2.
Proof. induction s1 as [|c s1 IH]; simpl; auto. Qed.

Lemma enc_le_length (n : nat) : forall z, String.length (enc_le n z) = n.
Proof. induction n as [|n IH]; intros z; simpl; [reflexivity | now rewrite IH]. Qed.

Lemma dec_enc_le (n : nat) :
  forall z, 0 <= z < 256 ^ Z.of_nat n -> dec_le (enc_le n z) = z.
Proof.
  induction n as [|n IH]; intros z Hz.
  - simpl in *. lia.
  - cbn [enc_le dec_le].
    rewrite N_ascii_embedding by
      (apply N2Z.inj_lt; rewrite Z2N.id by (apply Z.mod_pos_bound; lia);
       apply Z.mod_pos_bound; lia).
    rewrite Z2N.id by (apply Z.mod_pos_bound; lia).
    rewrite IH.
    + pose proof (Z.div_mod z 256 ltac:(lia)). lia.
    + rewrite Nat2Z.inj_succ, Z.pow_succ_r in Hz by lia.
      split; [apply Z.div_pos; lia | apply Z.div_lt_upper_bound; lia].
Qed.

Lemma ref_parse_sign (key subject : string) (t1 : Z) (hdr email : string) :
  String.length hdr = 8%nat ->
  t1 < dec_le hdr ->
  ref_ParseToken key subject t1 (sign key (hdr +:+ email))
  = inr (mkRefToken (<[subject := CString email]>
                       {["exp" := CNumber (dec_le hdr)]})).
Proof.
  intros Hhdr Ht. unfold ref_ParseToken, sign. cbv zeta.
  set (payload := hdr +:+ email).
  set (digest := Sha1.hex (key +:+ payload)).
  assert (Hlen : String.length digest = 40%nat) by apply sha1_hex_length.
  assert (Htake : str_take 40 (digest +:+ payload) = digest)
    by (rewrite <- Hlen; apply str_take_append).
  assert (Hdrop : str_drop 40 (digest +:+ payload) = payload)
    by (rewrite <- Hlen; apply str_drop_append).
  rewrite Htake, Hdrop. fold digest.
  rewrite String.eqb_refl. cbn [negb].
  assert (Hlong : (String.length (digest +:+ payload) <? 48)%nat = false).
  { apply Nat.ltb_ge. unfold payload. rewrite !length_append, Hlen, Hhdr. lia. }
  rewrite Hlong.
  assert (Hexp : str_take 8 payload = hdr)
    by (unfold payload; rewrite <- Hhdr; apply str_take_append).
  assert (Hsub : str_drop 8 payload = email)
    by (unfold payload; rewrite <- Hhdr; apply str_drop_append).
  rewrite Hexp, Hsub.
  destruct (dec_le hdr <=? t1) eqn:Hexpd; [apply Z.leb_le in Hexpd; lia |].
  reflexivity.
Qed.

Lemma ref_parse_issue (key subject : string) (period t0 t1 : Z) (email tok : string) :
  ref_NewToken key period t0 email = Some tok ->
  t1 < t0 + period ->
  ref_ParseToken key subject t1 tok
  = inr (mkRefToken (<[subject := CString email]>
                       {["exp" := CNumber (t0 + period)]})).
Proof.
  unfold ref_NewToken. intros Hnew Ht.
  destruct (String.eqb key ""); [discriminate |].
  destruct ((t0 + period <? 0) || (2 ^ 64 <=? t0 + period)) eqn:Hrange;
    [discriminate |].
  apply orb_false_iff in Hrange as [Hlo Hhi].
  apply Z.ltb_ge in Hlo. apply Z.leb_gt in Hhi.
  assert (Hdec : dec_le (enc_le 8 (t0 + period)) = t0 + period)
    by (apply dec_enc_le; change (256 ^ Z.of_nat 8) with (2 ^ 64); lia).
  assert (Htok : tok = sign key (enc_le 8 (t0 + period) +:+ email)) by congruence.
  rewrite Htok.
  rewrite (ref_parse_sign key subject t1 (enc_le 8 (t0 + period)) email);
    [ rewrite Hdec; reflexivity | apply enc_le_length | rewrite Hdec; exact Ht ].
Qed.

Lemma Reference_RoundTrip (key : string) (period : Z) :
  0 < period -> RoundTrip (Reference key "email" period).
Proof.
  intros Hpos. split; [exact Hpos |].
  intros t0 t1 email tok _ Hnew [_ Ht]. cbn in *.
  eexists _, _. split; [apply (ref_parse_issue _ _ _ _ _ _ _ Hnew Ht) |].
  split; [reflexivity |]. cbn. apply lookup_insert_eq.
Qed.
End ReferenceFacts.

(** ** The store *)

#[local] Arguments Sha1.hex : simpl never.

Lemma find_app_Some {A : Type} (f : A -> bool) (l l' : list A) (x : A) :
  List.find f l = Some x -> List.find f (l ++ l') = Some x.
Proof.
  induction l as [|y l IH]; simpl; [discriminate |].
  destruct (f y); auto.
Qed.

Lemma find_app_fresh {A : Type} (f : A -> bool) (l : list A) (x : A) :
  List.existsb f l = false -> f x = true -> List.find f (l ++ [x]) = Some x.
Proof.
  induction l as [|y l IH]; simpl; intros Hl Hx.
  - now rewrite Hx.
  - apply orb_false_iff in Hl as [Hy Hl]. rewrite Hy. auto.
Qed.

Lemma existsb_find_None {A : Type} (f : A -> bool) (l : list A) :
  List.existsb f l = false <-> List.find f l = None.
Proof.
  induction l as [|y l IH]; simpl; [tauto |].
  destruct (f y); simpl; [split; discriminate | exact IH].
Qed.

(** Unfold the endpoints down to the store, the topic and the error
    builder. *)
Ltac open_service :=
  unfold API.Auth, API.CreateUser, API.ValidateToken, Concurrent.step,
    API.fail_with, errs.Err, errs.Msg, errs.WithCode, errs.WithMeta, errs.B;
  cbn [ValidateUser ValidatePassword CreateUser UserExists NewService];
  unfold Service.ValidateUser, Service.ValidatePassword, Service.CreateUser,
    Service.UserExists, sqldb.QueryRow_user, sqldb.QueryRow_exists,
    sqldb.Exec_insert, pubsub.Publish;
  cbn [errs.Code errs.Message errs.Meta app users auth_topic
       API.ap_Email API.ap_Password API.cp_Email API.cp_Password
       API.cp_FirstName API.cp_LastName API.vp_Token].

Section StoreFacts.
Context {sec : security.Package}.

(** What a successful [CreateUser] went through. *)
Lemma CreateUser_Ok_inv (ctx : Infra) (w w' : World)
    (p : API.CreateUserParams) (r : API.CreateUserResponse) :
  API.CreateUser ctx w p = (Ok r, w') ->
  isValidEmail (API.cp_Email p) = true /\
  List.existsb (sqldb.by_email (API.cp_Email p)) (users w) = false /\
  security.NewToken (now ctx) (API.cp_Email p) = Some (API.cr_Token r) /\
  w' = mkWorld (users w ++ [new_row ctx p])
               (auth_topic w ++ [mkAuthEvent (API.cp_Email p)]).
Proof.
  open_service. fold (new_row ctx p).
  destruct (isValidEmail (API.cp_Email p)); cbn [negb]; [| discriminate].
  destruct (query_fails ctx); [discriminate |].
  destruct (List.existsb _ (users w)) eqn:Hex; [discriminate |].
  destruct (exec_fails ctx); [discriminate |].
  destruct (sqldb.violates_unique _ _); [discriminate |].
  destruct (security.NewToken _ _) as [tok|]; [| discriminate].
  destruct (publish_fails ctx); [discriminate |].
  intros H. injection H as <- <-. auto.
Qed.

(** A call that added its row had a valid email and passed the probe. *)
Lemma CreateUser_inserted_inv (ctx : Infra) (w : World) (p : API.CreateUserParams) :
  users (snd (API.CreateUser ctx w p)) = users w ++ [new_row ctx p] ->
  isValidEmail (API.cp_Email p) = true /\
  List.existsb (sqldb.by_email (API.cp_Email p)) (users w) = false.
Proof.
  assert (Hno : users w <> users w ++ [new_row ctx p]).
  { intros H. apply (f_equal (@List.length User)) in H.
    rewrite List.length_app in H. simpl in H. lia. }
  open_service.
  destruct (isValidEmail (API.cp_Email p)); cbn [negb snd users]; [| tauto].
  destruct (query_fails ctx); cbn [snd users]; [tauto |].
  destruct (List.existsb _ (users w)) eqn:Hex; cbn [snd users]; [tauto |].
  auto.
Qed.

(** No endpoint removes or rewrites a row: the table only grows at its
    end. *)
Lemma Auth_users (ctx : Infra) (w : World) (p : API.AuthParams) :
  users (snd (API.Auth ctx w p)) = users w.
Proof.
  unfold API.Auth.
  destruct (ValidateUser _ _ _ _); [reflexivity |].
  destruct (security.NewToken _ _); [| reflexivity].
  destruct (pubsub.Publish _ _ _) as [[e|] topic]; reflexivity.
Qed.

Lemma CreateUser_users (ctx : Infra) (w : World) (p : API.CreateUserParams) :
  exists rows, users (snd (API.CreateUser ctx w p)) = users w ++ rows.
Proof.
  open_service.
  destruct (negb _); [exists []; now rewrite List.app_nil_r |].
  destruct (query_fails ctx); [exists []; now rewrite List.app_nil_r |].
  destruct (List.existsb _ (users w)); [exists []; now rewrite List.app_nil_r |].
  destruct (exec_fails ctx); [exists []; now rewrite List.app_nil_r |].
  destruct (sqldb.violates_unique _ _); [exists []; now rewrite List.app_nil_r |].
  destruct (security.NewToken _ _); [| eexists; reflexivity].
  destruct (publish_fails ctx); eexists; reflexivity.
Qed.

Lemma exec_calls_users (cs : list Call) :
  forall w, exists rows, users (exec_calls cs w) = users w ++ rows.
Proof.
  induction cs as [|c cs IH]; intros w.
  - exists []. simpl. now rewrite List.app_nil_r.
  - change (exec_calls (c :: cs) w) with (exec_calls cs (exec_call w c)).
    destruct (IH (exec_call w c)) as [rows ->].
    destruct c as [ctx p | ctx p]; cbn [exec_call].
    + rewrite Auth_users. eauto.
    + destruct (CreateUser_users ctx w p) as [rows' ->].
      exists (rows' ++ rows). now rewrite List.app_assoc.
Qed.

(** With the right password and healthy infrastructure, [Auth] returns
    the token that [NewToken] issues and publishes one event. *)
Lemma Auth_Ok (ctx : Infra) (w : World) (email password token : string) (u : User) :
  query_fails ctx = false ->
  publish_fails ctx = false ->
  List.find (sqldb.by_email email) (users w) = Some u ->
  u_Password u = Sha1.hex password ->
  security.NewToken (now ctx) email = Some token ->
  API.Auth ctx w (API.mkAuthParams email password)
  = (Ok (API.mkAuthResponse token),
     mkWorld (users w) (auth_topic w ++ [mkAuthEvent email])).
Proof.
  intros Hq Hp Hfind Hpw Htok. open_service.
  rewrite Hq, Hfind, Hpw, String.eqb_refl. cbn [negb].
  rewrite Htok, Hp. reflexivity.
Qed.
End StoreFacts.

(** ** Authentication of a created user *)

Lemma ValidateToken_Ok {sec : security.Package} (ctx : Infra) (tok email : string)
    (t : security.Token) (m : gmap string security.ClaimValue) :
  security.ParseToken (now ctx) tok = inr t ->
  security.GetClaims t = Some m ->
  m !! "email" = Some (security.CString email) ->
  API.ValidateToken ctx (API.mkValidateTokenParams tok)
  = Ok (API.mkValidateTokenResponse email).
Proof.
  intros Hparse Hclaims Hemail. unfold API.ValidateToken.
  cbn [API.vp_Token]. rewrite Hparse, Hclaims, Hemail. reflexivity.
Qed.

(** C1.  A user whose row [CreateUser] inserted for email [e] and
    password [p] (the call returned its token, or failed only afterwards,
    at signing or publishing) authenticates with [(e, p)] after any later
    calls of the endpoints, as long as the store answers, the token is
    signed and the event is published: [Auth] returns a token, and from
    its issue until it expires [ValidateToken] extracts [e] from it. *)
Theorem C1_auth_after_create
    (sec : security.Package) (RT : security.RoundTrip sec)
    (ctx0 : Infra) (w0 : World) (p : API.CreateUserParams)
    (later : list Call) (ctx : Infra) :
  users (snd (API.CreateUser ctx0 w0 p)) = users w0 ++ [new_row ctx0 p] ->
  query_fails ctx = false ->
  publish_fails ctx = false ->
  security.NewToken (now ctx) (API.cp_Email p) <> None ->
  exists (token : string) (w' : World),
    API.Auth ctx (exec_calls later (snd (API.CreateUser ctx0 w0 p)))
      (API.mkAuthParams (API.cp_Email p) (API.cp_Password p))
    = (Ok (API.mkAuthResponse token), w') /\
    API.ValidateToken ctx (API.mkValidateTokenParams token)
    = Ok (API.mkValidateTokenResponse (API.cp_Email p)) /\
    forall ctx' : Infra,
      now ctx <= now ctx' < now ctx + security.lifetime ->
      API.ValidateToken ctx' (API.mkValidateTokenParams token)
      = Ok (API.mkValidateTokenResponse (API.cp_Email p)).
Proof.
  intros Hcreate Hq Hpub Hsign.
  destruct (CreateUser_inserted_inv ctx0 w0 p Hcreate) as [Hvalid Hfresh].
  destruct (security.NewToken (now ctx) (API.cp_Email p)) as [token|] eqn:Htok;
    [clear Hsign | congruence].
  destruct (exec_calls_users later (snd (API.CreateUser ctx0 w0 p)))
    as [rows Hrows].
  rewrite Hcreate in Hrows.
  assert (Hfind : List.find (sqldb.by_email (API.cp_Email p))
                    ((users w0 ++ [new_row ctx0 p]) ++ rows)
                  = Some (new_row ctx0 p)).
  { apply find_app_Some, find_app_fresh; [exact Hfresh |].
    unfold sqldb.by_email, new_row. cbn [u_Email]. apply String.eqb_refl. }
  rewrite <- Hrows in Hfind.
  assert (Hvalidate : forall ctx' : Infra,
             now ctx <= now ctx' < now ctx + security.lifetime ->
             API.ValidateToken ctx' (API.mkValidateTokenParams token)
             = Ok (API.mkValidateTokenResponse (API.cp_Email p))).
  { intros ctx' Hnow.
    destruct (security.verify_issue (now ctx) (now ctx') _ _ Hvalid Htok Hnow)
      as (t & m & Hparse & Hclaims & Hemail).
    exact (ValidateToken_Ok ctx' token _ t m Hparse Hclaims Hemail). }
  eexists token, _. split; [| split].
  - apply (Auth_Ok ctx _ _ _ token (new_row ctx0 p)); auto.
  - apply Hvalidate. pose proof security.lifetime_pos. lia.
  - exact Hvalidate.
Qed.

Lemma C1_witness :
  exists (token : string) (w' : World),
    API.Auth (sec := sec_ref) ctx_ok'
      (exec_calls (sec := sec_ref) [CallCreateUser ctx_ok' signup_v]
         (snd (API.CreateUser (sec := sec_ref) ctx_ok w_empty signup_u)))
      login_u
    = (Ok (API.mkAuthResponse token), w') /\
    API.ValidateToken (sec := sec_ref) ctx_ok' (API.mkValidateTokenParams token)
    = Ok (API.mkValidateTokenResponse "u@x.com") /\
    forall ctx' : Infra,
      now ctx_ok' <= now ctx' < now ctx_ok' + 3600 ->
      API.ValidateToken (sec := sec_ref) ctx' (API.mkValidateTokenParams token)
      = Ok (API.mkValidateTokenResponse "u@x.com").
Proof.
  refine (C1_auth_after_create sec_ref
            (Reference_RoundTrip "signing-key" 3600 ltac:(lia))
            ctx_ok w_empty signup_u
            [CallCreateUser ctx_ok' signup_v] ctx_ok' _ _ _ _).
  - vm_compute. reflexivity.
  - reflexivity.
  - reflexivity.
  - vm_compute. discriminate.
Defined.

(** ** Email validation *)

Lemma CreateUser_invalid_email (a : UseCase) (sec : security.Package)
    (ctx : Infra) (w : World) (p : API.CreateUserParams) :
  isValidEmail (API.cp_Email p) = false ->
  API.CreateUser ctx w p
  = (Fail (errs.mkError errs.InvalidArgument "invalid email format"
             [("create_user", API.cp_Email p)]), w).
Proof. intros H. unfold API.CreateUser. rewrite H. reflexivity. Qed.

(** C7.  [isValidEmail] accepts exactly the strings of the shape
    local-part, [@], domain, dot, top-level label of two or more letters.
    [CreateUser] answers an email outside that shape with
    [InvalidArgument] and the world untouched, whatever the service
    behind it and whatever the store would have said, and never answers
    an email of that shape with [InvalidArgument].  ["a@b.co"] is accepted;
    ["abc"], ["a@b"] and ["@b.com"] are rejected. *)
Theorem C7_email_validation :
  (forall email : string, isValidEmail email = true <-> EmailShape email) /\
  (forall (a : UseCase) (sec : security.Package) (ctx : Infra) (w : World)
          (p : API.CreateUserParams),
      isValidEmail (API.cp_Email p) = false ->
      API.CreateUser ctx w p
      = (Fail (errs.mkError errs.InvalidArgument "invalid email format"
                 [("create_user", API.cp_Email p)]), w)) /\
  (forall (a : UseCase) (sec : security.Package) (ctx : Infra) (w : World)
          (p : API.CreateUserParams) (e : errs.Error),
      isValidEmail (API.cp_Email p) = true ->
      fst (API.CreateUser ctx w p) = Fail e ->
      errs.Code e <> errs.InvalidArgument) /\
  isValidEmail "a@b.co" = true /\
  (forall (a : UseCase) (sec : security.Package) (ctx : Infra) (w : World)
          (email password firstName lastName : string),
      In email ["abc"; "a@b"; "@b.com"] ->
      API.CreateUser ctx w (API.mkCreateUserParams email password firstName lastName)
      = (Fail (errs.mkError errs.InvalidArgument "invalid email format"
                 [("create_user", email)]), w)).
Proof.
  split; [exact isValidEmail_shape |].
  split; [exact CreateUser_invalid_email |].
  split; [| split; [reflexivity |]].
  - intros a sec ctx w p e Hvalid. unfold API.CreateUser, API.fail_with.
    rewrite Hvalid. cbn [negb].
    destruct (UserExists _ _ _) as [[|] [err|]]; cbn [fst];
      try (intros H; injection H as <-; discriminate).
    destruct (CreateUser _ _ _ _ _ _) as [[err|] db]; cbn [fst];
      try (intros H; injection H as <-; discriminate).
    destruct (security.NewToken _ _); cbn [fst];
      try (intros H; injection H as <-; discriminate).
    destruct (pubsub.Publish _ _ _) as [[err|] topic]; cbn [fst];
      [intros H; injection H as <-; discriminate | discriminate].
  - intros a sec ctx w email password firstName lastName Hin.
    apply (CreateUser_invalid_email a sec ctx w
             (API.mkCreateUserParams email password firstName lastName)).
    cbn [API.cp_Email].
    destruct Hin as [<- | [<- | [<- | []]]]; reflexivity.
Qed.

Lemma C7_witness :
  API.CreateUser (a := NewService) (sec := sec_ref) ctx_ok w_u
    (API.mkCreateUserParams "a@b" "pw" "A" "B")
  = (Fail (errs.mkError errs.InvalidArgument "invalid email format"
             [("create_user", "a@b")]), w_u).
Proof.
  apply (proj2 (proj2 (proj2 (proj2 C7_email_validation)))).
  simpl. auto.
Defined.

(** ** Failed authentication *)

Lemma world_eta (w : World) : mkWorld (users w) (auth_topic w) = w.
Proof. destruct w; reflexivity. Qed.

Lemma Auth_rejected (a : UseCase) (sec : security.Package)
    (ctx : Infra) (w : World) (p : API.AuthParams) (err : error) :
  ValidateUser ctx (users w) (API.ap_Email p) (API.ap_Password p) = Some err ->
  API.Auth ctx w p
  = (Fail (errs.mkError errs.Unauthenticated "invalid credentials"
             [("auth", API.ap_Email p)]), w).
Proof. intros H. unfold API.Auth. rewrite H. reflexivity. Qed.

(** C4.  [Auth] with an email that has no row, and [Auth] with an email
    whose row holds another digest than that of the submitted password,
    both leave the world as it was and fail with code [Unauthenticated]
    and message "invalid credentials"; the two errors differ at most in
    the submitted email they echo, and are equal for the same email. *)
Theorem C4_auth_failures_indistinguishable
    (sec : security.Package) (ctx1 ctx2 : Infra) (w1 w2 : World)
    (e1 p1 e2 p2 : string) (u : User) :
  List.existsb (sqldb.by_email e1) (users w1) = false ->
  List.find (sqldb.by_email e2) (users w2) = Some u ->
  u_Password u <> Sha1.hex p2 ->
  exists err1 err2 : errs.Error,
    API.Auth ctx1 w1 (API.mkAuthParams e1 p1) = (Fail err1, w1) /\
    API.Auth ctx2 w2 (API.mkAuthParams e2 p2) = (Fail err2, w2) /\
    err1 = errs.mkError errs.Unauthenticated "invalid credentials" [("auth", e1)] /\
    err2 = errs.mkError errs.Unauthenticated "invalid credentials" [("auth", e2)] /\
    errs.Code err1 = errs.Code err2 /\
    errs.Message err1 = errs.Message err2 /\
    (e1 = e2 -> err1 = err2).
Proof.
  intros Hunknown Hknown Hwrong.
  assert (H1 : exists err, ValidateUser ctx1 (users w1) e1 p1 = Some err).
  { cbn [ValidateUser NewService].
    unfold Service.ValidateUser, sqldb.QueryRow_user.
    apply existsb_find_None in Hunknown. rewrite Hunknown.
    destruct (query_fails ctx1); eauto. }
  assert (H2 : exists err, ValidateUser ctx2 (users w2) e2 p2 = Some err).
  { cbn [ValidateUser NewService].
    unfold Service.ValidateUser, sqldb.QueryRow_user, Service.ValidatePassword.
    rewrite Hknown.
    destruct (query_fails ctx2); [eauto |].
    destruct (String.eqb_spec (Sha1.hex p2) (u_Password u)) as [Heq | Hne];
      [congruence | cbn [negb]; eauto]. }
  destruct H1 as [err1 H1]. destruct H2 as [err2 H2].
  eexists _, _.
  split; [exact (Auth_rejected NewService sec ctx1 w1 (API.mkAuthParams e1 p1) err1 H1) |].
  split; [exact (Auth_rejected NewService sec ctx2 w2 (API.mkAuthParams e2 p2) err2 H2) |].
  cbn [API.ap_Email errs.Code errs.Message].
  repeat split; auto. intros ->. reflexivity.
Qed.

Lemma C4_witness :
  exists err1 err2 : errs.Error,
    API.Auth (sec := sec_ref) ctx_ok w_empty login_u = (Fail err1, w_empty) /\
    API.Auth (sec := sec_ref) ctx_ok' w_u (API.mkAuthParams "u@x.com" "wrong")
    = (Fail err2, w_u) /\
    err1 = errs.mkError errs.Unauthenticated "invalid credentials" [("auth", "u@x.com")] /\
    err2 = errs.mkError errs.Unauthenticated "invalid credentials" [("auth", "u@x.com")] /\
    errs.Code err1 = errs.Code err2 /\
    errs.Message err1 = errs.Message err2 /\
    ("u@x.com" = "u@x.com" -> err1 = err2).
Proof.
  refine (C4_auth_failures_indistinguishable sec_ref ctx_ok ctx_ok' w_empty w_u
            "u@x.com" "pw" "u@x.com" "wrong"
            (mkUser "7c9e6679-7425-40de-944b-e07fc1f90ae7" "u@x.com"
               "1a91d62f7ca67399625a4368a6ab5d4a3baa6073" "A" "B") _ _ _).
  - reflexivity.
  - reflexivity.
  - vm_compute. discriminate.
Defined.

(** ** Publish failures *)

Lemma Auth_publish_fails
    (a : UseCase) (sec : security.Package) (ctx : Infra) (w : World)
    (p : API.AuthParams) (token : string) :
  ValidateUser ctx (users w) (API.ap_Email p) (API.ap_Password p) = None ->
  security.NewToken (now ctx) (API.ap_Email p) = Some token ->
  publish_fails ctx = true ->
  API.Auth ctx w p
  = (Fail (errs.mkError errs.Internal "internal error" [("auth", API.ap_Email p)]), w).
Proof.
  intros Hvalid Htok Hpub. unfold API.Auth, pubsub.Publish.
  rewrite Hvalid, Htok, Hpub, world_eta. reflexivity.
Qed.

(** C8.  When the credentials are accepted and the token is signed but
    the publish of the [AuthEvent] fails, [Auth] returns the [Internal]
    error "internal error" and no token; nothing was published. *)
Theorem C8_auth_publish_failure
    (a : UseCase) (sec : security.Package) (ctx : Infra) (w : World)
    (p : API.AuthParams) (token : string) :
  ValidateUser ctx (users w) (API.ap_Email p) (API.ap_Password p) = None ->
  security.NewToken (now ctx) (API.ap_Email p) = Some token ->
  publish_fails ctx = true ->
  API.Auth ctx w p
  = (Fail (errs.mkError errs.Internal "internal error" [("auth", API.ap_Email p)]), w).
Proof. apply Auth_publish_fails. Qed.

Lemma C8_witness :
  API.Auth (a := NewService) (sec := sec_ref) ctx_publish_down w_u login_u
  = (Fail (errs.mkError errs.Internal "internal error" [("auth", "u@x.com")]), w_u).
Proof.
  refine (C8_auth_publish_failure NewService sec_ref ctx_publish_down w_u login_u
            (match security.NewToken (Package := sec_ref) (now ctx_publish_down) "u@x.com"
             with Some t => t | None => "" end) _ _ _).
  - vm_compute. reflexivity.
  - vm_compute. reflexivity.
  - reflexivity.
Defined.

Lemma violates_unique_email (db : list User) (row : User) :
  sqldb.violates_unique db row = false ->
  List.existsb (sqldb.by_email (u_Email row)) db = false.
Proof.
  unfold sqldb.violates_unique, sqldb.by_email.
  induction db as [|u db IH]; simpl; [reflexivity |].
  intros H. apply orb_false_iff in H as [Hu Hdb].
  apply orb_false_iff in Hu as [_ ->]. auto.
Qed.

Lemma email_taken_violates (db : list User) (row : User) :
  List.existsb (sqldb.by_email (u_Email row)) db = true ->
  sqldb.violates_unique db row = true.
Proof.
  intros H. destruct (sqldb.violates_unique db row) eqn:Hv; [reflexivity |].
  apply violates_unique_email in Hv. congruence.
Qed.

Lemma email_taken_after_insert (db : list User) (row : User) :
  List.existsb (sqldb.by_email (u_Email row)) (db ++ [row]) = true.
Proof.
  rewrite List.existsb_app. simpl. unfold sqldb.by_email at 2.
  rewrite String.eqb_refl. now rewrite orb_true_r.
Qed.

Lemma CreateUser_publish_fails
    (sec : security.Package) (ctx : Infra) (w : World)
    (p : API.CreateUserParams) (token : string) :
  isValidEmail (API.cp_Email p) = true ->
  query_fails ctx = false ->
  exec_fails ctx = false ->
  sqldb.violates_unique (users w) (new_row ctx p) = false ->
  security.NewToken (now ctx) (API.cp_Email p) = Some token ->
  publish_fails ctx = true ->
  API.CreateUser ctx w p
  = (Fail (errs.mkError errs.Internal "internal error"
             [("create_user", API.cp_Email p)]),
     mkWorld (users w ++ [new_row ctx p]) (auth_topic w)).
Proof.
  intros Hvalid Hq He Huniq Htok Hpub.
  pose proof (violates_unique_email _ _ Huniq) as Hfresh.
  cbn [new_row u_Email] in Hfresh.
  open_service. fold (new_row ctx p).
  rewrite Hvalid, Hq, Hfresh, He, Huniq, Htok, Hpub. reflexivity.
Qed.

(** C10.  When the insert and the signing succeed but the publish fails,
    [CreateUser] returns the [Internal] error "internal error" and the new
    row stays in the table; the same request sent again, with the store
    answering, is refused with [AlreadyExists]. *)
Theorem C10_create_not_atomic
    (sec : security.Package) (ctx ctx' : Infra) (w : World)
    (p : API.CreateUserParams) (token : string) :
  isValidEmail (API.cp_Email p) = true ->
  query_fails ctx = false ->
  exec_fails ctx = false ->
  sqldb.violates_unique (users w) (new_row ctx p) = false ->
  security.NewToken (now ctx) (API.cp_Email p) = Some token ->
  publish_fails ctx = true ->
  query_fails ctx' = false ->
  let w' := mkWorld (users w ++ [new_row ctx p]) (auth_topic w) in
  API.CreateUser ctx w p
  = (Fail (errs.mkError errs.Internal "internal error"
             [("create_user", API.cp_Email p)]), w') /\
  API.CreateUser ctx' w' p
  = (Fail (errs.mkError errs.AlreadyExists "email already exists"
             [("create_user", API.cp_Email p)]), w').
Proof.
  intros Hvalid Hq He Huniq Htok Hpub Hq' w'.
  pose proof (violates_unique_email _ _ Huniq) as Hfresh.
  pose proof (email_taken_after_insert (users w) (new_row ctx p)) as Htaken.
  cbn [new_row u_Email] in Hfresh, Htaken.
  split.
  - now apply (CreateUser_publish_fails sec ctx w p token).
  - subst w'. open_service.
    rewrite Hvalid, Hq', Htaken. reflexivity.
Qed.

Lemma C10_witness :
  let w' := mkWorld (users w_empty ++ [new_row ctx_publish_down signup_u])
                    (auth_topic w_empty) in
  API.CreateUser (sec := sec_ref) ctx_publish_down w_empty signup_u
  = (Fail (errs.mkError errs.Internal "internal error"
             [("create_user", "u@x.com")]), w') /\
  API.CreateUser (sec := sec_ref) ctx_ok w' signup_u
  = (Fail (errs.mkError errs.AlreadyExists "email already exists"
             [("create_user", "u@x.com")]), w').
Proof.
  refine (C10_create_not_atomic sec_ref ctx_publish_down ctx_ok w_empty signup_u
            (match security.NewToken (Package := sec_ref) (now ctx_publish_down) "u@x.com"
             with Some t => t | None => "" end) _ _ _ _ _ _ _).
  - reflexivity.
  - reflexivity.
  - reflexivity.
  - reflexivity.
  - vm_compute. reflexivity.
  - reflexivity.
  - reflexivity.
Defined.

(** ** Infrastructure failures *)

(** A store that does not answer the lookup of [Auth] is reported as bad
    credentials: the request below carries the right password of a stored
    user. *)
Lemma C5_counterexample :
  API.Auth (sec := sec_ref) ctx_query_down w_u login_u
  = (Fail (errs.mkError errs.Unauthenticated "invalid credentials"
             [("auth", "u@x.com")]), w_u) /\
  API.Auth (sec := sec_ref) ctx_ok' w_u login_u
  <> (Fail (errs.mkError errs.Unauthenticated "invalid credentials"
              [("auth", "u@x.com")]), w_u).
Proof. split; [vm_compute; reflexivity | vm_compute; discriminate]. Qed.

(** C5, amended.  In [CreateUser], a failure of the existence query, of
    the insert statement, of the signing or of the publish surfaces as
    [Internal]; in [Auth], a failure of the signing or of the publish
    surfaces as [Internal], while a failure of the user query surfaces as
    [Unauthenticated] with the message of bad credentials. *)
Theorem C5_infrastructure_failures
    (sec : security.Package) (ctx : Infra) (w : World) :
  (forall p : API.AuthParams,
      query_fails ctx = true ->
      API.Auth ctx w p
      = (Fail (errs.mkError errs.Unauthenticated "invalid credentials"
                 [("auth", API.ap_Email p)]), w)) /\
  (forall p : API.AuthParams,
      ValidateUser ctx (users w) (API.ap_Email p) (API.ap_Password p) = None ->
      security.NewToken (now ctx) (API.ap_Email p) = None ->
      API.Auth ctx w p
      = (Fail (errs.mkError errs.Internal "internal error"
                 [("auth", API.ap_Email p)]), w)) /\
  (forall (p : API.AuthParams) (token : string),
      ValidateUser ctx (users w) (API.ap_Email p) (API.ap_Password p) = None ->
      security.NewToken (now ctx) (API.ap_Email p) = Some token ->
      publish_fails ctx = true ->
      API.Auth ctx w p
      = (Fail (errs.mkError errs.Internal "internal error"
                 [("auth", API.ap_Email p)]), w)) /\
  (forall p : API.CreateUserParams,
      isValidEmail (API.cp_Email p) = true ->
      query_fails ctx = true ->
      API.CreateUser ctx w p
      = (Fail (errs.mkError errs.Internal "internal error"
                 [("create_user", API.cp_Email p)]), w)) /\
  (forall p : API.CreateUserParams,
      isValidEmail (API.cp_Email p) = true ->
      query_fails ctx = false ->
      List.existsb (sqldb.by_email (API.cp_Email p)) (users w) = false ->
      exec_fails ctx = true ->
      API.CreateUser ctx w p
      = (Fail (errs.mkError errs.Internal "could not create user"
                 [("create_user", API.cp_Email p)]), w)) /\
  (forall p : API.CreateUserParams,
      isValidEmail (API.cp_Email p) = true ->
      query_fails ctx = false ->
      exec_fails ctx = false ->
      sqldb.violates_unique (users w) (new_row ctx p) = false ->
      security.NewToken (now ctx) (API.cp_Email p) = None ->
      API.CreateUser ctx w p
      = (Fail (errs.mkError errs.Internal "internal error"
                 [("create_user", API.cp_Email p)]),
         mkWorld (users w ++ [new_row ctx p]) (auth_topic w))) /\
  (forall (p : API.CreateUserParams) (token : string),
      isValidEmail (API.cp_Email p) = true ->
      query_fails ctx = false ->
      exec_fails ctx = false ->
      sqldb.violates_unique (users w) (new_row ctx p) = false ->
      security.NewToken (now ctx) (API.cp_Email p) = Some token ->
      publish_fails ctx = true ->
      API.CreateUser ctx w p
      = (Fail (errs.mkError errs.Internal "internal error"
                 [("create_user", API.cp_Email p)]),
         mkWorld (users w ++ [new_row ctx p]) (auth_topic w))).
Proof.
  repeat apply conj.
  - intros p Hq. apply (Auth_rejected NewService sec ctx w p
                          (Errorf_w "invalid user %w" sqldb.Unavailable)).
    cbn [ValidateUser NewService].
    unfold Service.ValidateUser, sqldb.QueryRow_user. now rewrite Hq.
  - intros p Hvalid Htok. unfold API.Auth. rewrite Hvalid, Htok. reflexivity.
  - intros p token. apply Auth_publish_fails.
  - intros p Hvalid Hq. open_service. rewrite Hvalid, Hq. reflexivity.
  - intros p Hvalid Hq Hfresh He. open_service.
    rewrite Hvalid, Hq, Hfresh, He. cbn. now rewrite world_eta.
  - intros p Hvalid Hq He Huniq Htok.
    pose proof (violates_unique_email _ _ Huniq) as Hfresh.
    cbn [new_row u_Email] in Hfresh.
    open_service. fold (new_row ctx p).
    rewrite Hvalid, Hq, Hfresh, He, Huniq, Htok. reflexivity.
  - intros p token Hvalid Hq He Huniq Htok Hpub.
    now apply (CreateUser_publish_fails sec ctx w p token).
Qed.

Lemma C5_witness :
  API.CreateUser (sec := sec_ref) ctx_query_down w_u signup_v
  = (Fail (errs.mkError errs.Internal "internal error"
             [("create_user", "v@y.org")]), w_u) /\
  API.CreateUser (sec := sec_ref) ctx_exec_down w_u signup_v
  = (Fail (errs.mkError errs.Internal "could not create user"
             [("create_user", "v@y.org")]), w_u) /\
  API.Auth (sec := sec_nokey) ctx_ok' w_u login_u
  = (Fail (errs.mkError errs.Internal "internal error"
             [("auth", "u@x.com")]), w_u).
Proof.
  split; [| split].
  - apply (proj1 (proj2 (proj2 (proj2
             (C5_infrastructure_failures sec_ref ctx_query_down w_u)))) signup_v);
      reflexivity.
  - apply (proj1 (proj2 (proj2 (proj2 (proj2
             (C5_infrastructure_failures sec_ref ctx_exec_down w_u))))) signup_v);
      reflexivity.
  - apply (proj1 (proj2 (C5_infrastructure_failures sec_nokey ctx_ok' w_u)) login_u);
      vm_compute; reflexivity.
Defined.

(** ** Duplicate emails *)

(** Two sign-ups for one email: both probes run before either insert.
    The second insert meets a row with that email, the store refuses it
    with a uniqueness violation, and the call returns [Internal]. *)
Lemma C3_counterexample :
  let w := mkWorld (users w_empty ++ [new_row ctx_ok signup_u]) (auth_topic w_empty) in
  Concurrent.call2
    (Concurrent.run (sec := sec_ref) ctx_ok signup_u ctx_ok' signup_u
       [Concurrent.First; Concurrent.Second; Concurrent.First; Concurrent.Second]
       (Concurrent.mkConfig Concurrent.AtProbe Concurrent.AtProbe w_empty))
  = Concurrent.Returned
      (Fail (errs.mkError errs.Internal "could not create user"
               [("create_user", "u@x.com")])) /\
  List.existsb (sqldb.by_email "u@x.com") (users w) = true /\
  sqldb.Exec_insert ctx_ok' (users w) (new_row ctx_ok' signup_u)
  = (Some sqldb.UniqueViolation, users w).
Proof. vm_compute. repeat split; reflexivity. Qed.

(** C3, amended.  For an email that already has a row, [CreateUser]
    returns [AlreadyExists] when the existence probe answers and reports
    it; a call that passed the probe before the row appeared has its
    insert refused by the uniqueness constraint and returns the [Internal]
    error "could not create user". *)
Theorem C3_already_exists_from_probe_only
    (sec : security.Package) (ctx : Infra) (w : World) (p : API.CreateUserParams) :
  isValidEmail (API.cp_Email p) = true ->
  List.existsb (sqldb.by_email (API.cp_Email p)) (users w) = true ->
  (query_fails ctx = false ->
   API.CreateUser ctx w p
   = (Fail (errs.mkError errs.AlreadyExists "email already exists"
              [("create_user", API.cp_Email p)]), w)) /\
  (exec_fails ctx = false ->
   sqldb.Exec_insert ctx (users w) (new_row ctx p)
   = (Some sqldb.UniqueViolation, users w)) /\
  Concurrent.step ctx p Concurrent.AtInsert w
  = (Concurrent.Returned
       (Fail (errs.mkError errs.Internal "could not create user"
                [("create_user", API.cp_Email p)])), w).
Proof.
  intros Hvalid Htaken.
  assert (Hviol : sqldb.violates_unique (users w) (new_row ctx p) = true)
    by (apply email_taken_violates; exact Htaken).
  repeat apply conj.
  - intros Hq. open_service. rewrite Hvalid, Hq, Htaken. reflexivity.
  - intros He. unfold sqldb.Exec_insert. rewrite He, Hviol. reflexivity.
  - open_service. fold (new_row ctx p). rewrite Hviol.
    destruct (exec_fails ctx); cbn; now rewrite world_eta.
Qed.

Lemma C3_witness :
  (query_fails ctx_ok' = false ->
   API.CreateUser (sec := sec_ref) ctx_ok' w_u signup_u
   = (Fail (errs.mkError errs.AlreadyExists "email already exists"
              [("create_user", "u@x.com")]), w_u)) /\
  (exec_fails ctx_ok' = false ->
   sqldb.Exec_insert ctx_ok' (users w_u) (new_row ctx_ok' signup_u)
   = (Some sqldb.UniqueViolation, users w_u)) /\
  Concurrent.step (sec := sec_ref) ctx_ok' signup_u Concurrent.AtInsert w_u
  = (Concurrent.Returned
       (Fail (errs.mkError errs.Internal "could not create user"
                [("create_user", "u@x.com")])), w_u).
Proof.
  apply (C3_already_exists_from_probe_only sec_ref ctx_ok' w_u signup_u);
    reflexivity.
Defined.

(** ** Password digests *)

(** Two accounts created with the password "pw" hold the same digest. *)
Lemma C9_counterexample :
  let w1 := snd (API.CreateUser (sec := sec_ref) ctx_ok w_empty signup_u) in
  let w2 := snd (API.CreateUser (sec := sec_ref) ctx_ok' w1 signup_v) in
  API.cp_Password signup_u = API.cp_Password signup_v /\
  List.map u_Email (users w2) = ["u@x.com"; "v@y.org"] /\
  List.map u_Password (users w2)
  = ["1a91d62f7ca67399625a4368a6ab5d4a3baa6073";
     "1a91d62f7ca67399625a4368a6ab5d4a3baa6073"].
Proof. vm_compute. repeat split; reflexivity. Qed.

(** C9, amended.  The stored digest is the hexadecimal SHA-1 of the
    plaintext alone: two accounts created by [CreateUser] with the same
    password hold the same digest, whatever their emails, identifiers and
    the time and state of the store at which they were created. *)
Theorem C9_digest_unsalted
    (sec : security.Package) (ctx1 ctx2 : Infra) (w1 w1' w2 w2' : World)
    (p1 p2 : API.CreateUserParams) (r1 r2 : API.CreateUserResponse) :
  API.CreateUser ctx1 w1 p1 = (Ok r1, w1') ->
  API.CreateUser ctx2 w2 p2 = (Ok r2, w2') ->
  API.cp_Password p1 = API.cp_Password p2 ->
  exists u1 u2 : User,
    users w1' = users w1 ++ [u1] /\ u_Email u1 = API.cp_Email p1 /\
    users w2' = users w2 ++ [u2] /\ u_Email u2 = API.cp_Email p2 /\
    u_Password u1 = Sha1.hex (API.cp_Password p1) /\
    u_Password u2 = u_Password u1.
Proof.
  intros H1 H2 Hpw.
  apply CreateUser_Ok_inv in H1 as (_ & _ & _ & ->).
  apply CreateUser_Ok_inv in H2 as (_ & _ & _ & ->).
  exists (new_row ctx1 p1), (new_row ctx2 p2).
  cbn [users new_row u_Email u_Password]. rewrite Hpw. repeat split; reflexivity.
Qed.

Lemma C9_witness :
  exists u1 u2 : User,
    users w_u = users w_empty ++ [u1] /\ u_Email u1 = "u@x.com" /\
    users (exec_calls (sec := sec_ref) [CallCreateUser ctx_ok' signup_v] w_u)
    = users w_u ++ [u2] /\ u_Email u2 = "v@y.org" /\
    u_Password u1 = Sha1.hex "pw" /\
    u_Password u2 = u_Password u1.
Proof.
  refine (C9_digest_unsalted sec_ref ctx_ok ctx_ok' w_empty w_u w_u
            (exec_calls (sec := sec_ref) [CallCreateUser ctx_ok' signup_v] w_u)
            signup_u signup_v
            (API.mkCreateUserResponse
               (match security.NewToken (Package := sec_ref) (now ctx_ok) "u@x.com"
                with Some t => t | None => "" end))
            (API.mkCreateUserResponse
               (match security.NewToken (Package := sec_ref) (now ctx_ok') "v@y.org"
                with Some t => t | None => "" end)) _ _ _).
  - vm_compute. reflexivity.
  - vm_compute. reflexivity.
  - reflexivity.
Defined.

(** ** Token validation *)

(** The string "garbage" is answered with [Internal]. *)
Lemma C2_counterexample :
  API.ValidateToken (sec := sec_ref) ctx_ok (API.mkValidateTokenParams "garbage")
  = Fail (errs.mkError errs.Internal "internal error"
            [("validate_token", "garbage")]).
Proof. vm_compute. reflexivity. Qed.

(** C2, amended.  A token string that the token package does not accept,
    malformed, forged or expired, makes [ValidateToken] return the
    [Internal] error "internal error": an error value and not a crash, but
    with the code of an infrastructure failure. *)
Theorem C2_rejected_token_is_internal
    (sec : security.Package) (ctx : Infra) (p : API.ValidateTokenParams)
    (err : security.TokenError) :
  security.ParseToken (now ctx) (API.vp_Token p) = inl err ->
  API.ValidateToken ctx p
  = Fail (errs.mkError errs.Internal "internal error"
            [("validate_token", API.vp_Token p)]).
Proof. intros H. unfold API.ValidateToken. rewrite H. reflexivity. Qed.

Lemma C2_witness :
  API.ValidateToken (sec := sec_ref) ctx_ok (API.mkValidateTokenParams "garbage")
  = Fail (errs.mkError errs.Internal "internal error"
            [("validate_token", "garbage")]).
Proof.
  apply (C2_rejected_token_is_internal sec_ref ctx_ok
           (API.mkValidateTokenParams "garbage") security.Invalid).
  vm_compute. reflexivity.
Defined.

(** The claim extraction itself is unguarded: an accepted token whose
    claims hold no string under "email" crashes the handler. *)
Lemma ValidateToken_panics (sec : security.Package) (ctx : Infra)
    (p : API.ValidateTokenParams) (t : security.Token)
    (m : gmap string security.ClaimValue) :
  security.ParseToken (now ctx) (API.vp_Token p) = inr t ->
  security.GetClaims t = Some m ->
  (forall email, m !! "email" <> Some (security.CString email)) ->
  API.ValidateToken ctx p = Panic.
Proof.
  intros Hparse Hclaims Hemail. unfold API.ValidateToken.
  rewrite Hparse, Hclaims.
  destruct (m !! "email") as [[email| | |]|] eqn:Hm; try reflexivity.
  now destruct (Hemail email).
Qed.

(** A token signed with the same key by a service that names its subject
    claim "sub". *)
Example ValidateToken_panics_on_foreign_claims :
  let sec := security.Reference "signing-key" "sub" 3600 in
  match security.NewToken (Package := sec) 1700000000 "u@x.com" with
  | Some tok =>
      API.ValidateToken (sec := sec) ctx_ok (API.mkValidateTokenParams tok) = Panic
  | None => False
  end.
Proof. vm_compute. reflexivity. Qed.

(** ** Concurrent sign-ups *)

(** A call run alone crosses its three boundaries and returns what
    [CreateUser] returns. *)
Lemma CreateUser_steps (a : UseCase) (sec : security.Package)
    (ctx : Infra) (w : World) (p : API.CreateUserParams) :
  Concurrent.steps 3 ctx p Concurrent.AtProbe w
  = (Concurrent.Returned (fst (API.CreateUser ctx w p)), snd (API.CreateUser ctx w p)).
Proof.
  unfold API.CreateUser. cbn [Concurrent.steps Concurrent.step].
  destruct (negb _); [reflexivity |].
  destruct (UserExists _ _ _) as [[|] [err|]]; try reflexivity.
  cbn [Concurrent.step users auth_topic].
  destruct (CreateUser _ _ _ _ _ _) as [[err|] db]; [reflexivity |].
  destruct (security.NewToken _ _); [| reflexivity].
  cbn [Concurrent.step users auth_topic].
  destruct (pubsub.Publish _ _ _) as [[err|] topic]; reflexivity.
Qed.

Lemma step_remaining (a : UseCase) (sec : security.Package)
    (ctx : Infra) (p : API.CreateUserParams) (st : Concurrent.CallState) (w : World) :
  (Concurrent.remaining (fst (Concurrent.step ctx p st w))
   <= Nat.pred (Concurrent.remaining st))%nat.
Proof.
  destruct st as [ | | token | r]; cbn [Concurrent.step].
  - destruct (negb _); [cbn; lia |].
    destruct (UserExists _ _ _) as [[|] [err|]]; cbn; lia.
  - destruct (CreateUser _ _ _ _ _ _) as [[err|] db]; [cbn; lia |].
    destruct (security.NewToken _ _); cbn; lia.
  - destruct (pubsub.Publish _ _ _) as [[err|] topic]; cbn; lia.
  - cbn. lia.
Qed.

Section Racing.
Import Concurrent.
Context {sec : security.Package}.

Section OneCall.
Variables (ctx : Infra) (p : API.CreateUserParams) (tok : string).
Hypothesis Hvalid : isValidEmail (API.cp_Email p) = true.
Hypothesis Hctx : healthy ctx = true.
Hypothesis Htok : security.NewToken (now ctx) (API.cp_Email p) = Some tok.

Lemma healthy_inv :
  query_fails ctx = false /\ exec_fails ctx = false /\ publish_fails ctx = false.
Proof.
  unfold healthy in Hctx.
  destruct (query_fails ctx), (exec_fails ctx), (publish_fails ctx);
    try discriminate; auto.
Qed.

Lemma step_early (st : CallState) (w : World) :
  early st ->
  sqldb.violates_unique (users w) (new_row ctx p) = false ->
  (early (fst (step ctx p st w)) /\ users (snd (step ctx p st w)) = users w) \/
  (winning tok (fst (step ctx p st w)) /\
   users (snd (step ctx p st w)) = users w ++ [new_row ctx p]).
Proof.
  destruct healthy_inv as (Hq & He & Hp).
  intros Hst Huniq.
  pose proof (violates_unique_email _ _ Huniq) as Hfresh.
  cbn [new_row u_Email] in Hfresh.
  destruct Hst; open_service; fold (new_row ctx p).
  - rewrite Hvalid, Hq, Hfresh. left. split; [constructor | reflexivity].
  - rewrite He, Huniq, Htok. right. split; [constructor | reflexivity].
Qed.

Lemma step_winning (st : CallState) (w : World) :
  winning tok st ->
  winning tok (fst (step ctx p st w)) /\ users (snd (step ctx p st w)) = users w.
Proof.
  destruct healthy_inv as (Hq & He & Hp).
  intros Hst. destruct Hst; open_service.
  - rewrite Hp. split; [constructor | reflexivity].
  - split; [constructor | reflexivity].
Qed.

Lemma step_losing (st : CallState) (w : World) :
  losing (API.cp_Email p) st ->
  List.existsb (sqldb.by_email (API.cp_Email p)) (users w) = true ->
  losing (API.cp_Email p) (fst (step ctx p st w)) /\
  users (snd (step ctx p st w)) = users w.
Proof.
  destruct healthy_inv as (Hq & He & Hp).
  intros Hst Htaken.
  assert (Hviol : sqldb.violates_unique (users w) (new_row ctx p) = true)
    by (apply email_taken_violates; exact Htaken).
  destruct Hst; open_service; fold (new_row ctx p).
  - rewrite Hvalid, Hq, Htaken. split; [constructor | reflexivity].
  - rewrite He, Hviol. split; [constructor | reflexivity].
  - split; [constructor | reflexivity].
  - split; [constructor | reflexivity].
Qed.
End OneCall.
End Racing.

Lemma early_losing (email : string) (st : Concurrent.CallState) :
  Concurrent.early st -> Concurrent.losing email st.
Proof. intros []; constructor. Qed.

Section TwoCalls.
Import Concurrent.
Context {sec : security.Package}.
Variables (ctx1 ctx2 : Infra) (p1 p2 : API.CreateUserParams)
          (tok1 tok2 : string) (db0 : list User).
Hypothesis Hsame : API.cp_Email p1 = API.cp_Email p2.
Hypothesis Hvalid : isValidEmail (API.cp_Email p1) = true.
Hypothesis Hctx1 : healthy ctx1 = true.
Hypothesis Hctx2 : healthy ctx2 = true.
Hypothesis Huniq1 : sqldb.violates_unique db0 (new_row ctx1 p1) = false.
Hypothesis Huniq2 : sqldb.violates_unique db0 (new_row ctx2 p2) = false.
Hypothesis Htok1 : security.NewToken (now ctx1) (API.cp_Email p1) = Some tok1.
Hypothesis Htok2 : security.NewToken (now ctx2) (API.cp_Email p2) = Some tok2.

Let race : Config -> Prop :=
  Race db0 (API.cp_Email p1) (new_row ctx1 p1) (new_row ctx2 p2) tok1 tok2.

Let Hvalid2 : isValidEmail (API.cp_Email p2) = true.
Proof. rewrite <- Hsame. exact Hvalid. Qed.

Lemma taken_after_first :
  List.existsb (sqldb.by_email (API.cp_Email p2)) (db0 ++ [new_row ctx1 p1]) = true.
Proof. rewrite <- Hsame. apply (email_taken_after_insert db0 (new_row ctx1 p1)). Qed.

Lemma taken_after_second :
  List.existsb (sqldb.by_email (API.cp_Email p1)) (db0 ++ [new_row ctx2 p2]) = true.
Proof. rewrite Hsame. apply (email_taken_after_insert db0 (new_row ctx2 p2)). Qed.

Lemma turn_race (c : Config) (t : Turn) :
  race c -> race (turn ctx1 p1 ctx2 p2 c t).
Proof.
  intros Hc. destruct t; unfold turn.
  - destruct (step ctx1 p1 (call1 c) (world c)) as [st w] eqn:Hstep.
    destruct Hc as [c Hdb H1 H2 | c Hdb H1 H2 | c Hdb H1 H2].
    + destruct (step_early ctx1 p1 tok1 Hvalid Hctx1 Htok1 (call1 c) (world c) H1)
        as [[Hst Hw] | [Hst Hw]]; [now rewrite Hdb | | ];
        rewrite Hstep in Hst, Hw; cbn [fst snd] in Hst, Hw.
      * apply race_open; cbn; [congruence | assumption | assumption].
      * apply race_first; cbn;
          [congruence | assumption | now apply early_losing].
    + destruct (step_winning ctx1 p1 tok1 Hctx1 (call1 c) (world c) H1) as [Hst Hw].
      rewrite Hstep in Hst, Hw; cbn [fst snd] in Hst, Hw.
      apply race_first; cbn; [congruence | assumption | assumption].
    + destruct (step_losing ctx1 p1 Hvalid Hctx1 (call1 c) (world c) H1) as [Hst Hw];
        [rewrite Hdb; apply taken_after_second |].
      rewrite Hstep in Hst, Hw; cbn [fst snd] in Hst, Hw.
      apply race_second; cbn; [congruence | assumption | assumption].
  - destruct (step ctx2 p2 (call2 c) (world c)) as [st w] eqn:Hstep.
    destruct Hc as [c Hdb H1 H2 | c Hdb H1 H2 | c Hdb H1 H2].
    + destruct (step_early ctx2 p2 tok2 Hvalid2 Hctx2 Htok2 (call2 c) (world c) H2)
        as [[Hst Hw] | [Hst Hw]]; [now rewrite Hdb | | ];
        rewrite Hstep in Hst, Hw; cbn [fst snd] in Hst, Hw.
      * apply race_open; cbn; [congruence | assumption | assumption].
      * apply race_second; cbn;
          [congruence | now apply early_losing | assumption].
    + rewrite Hsame in H2.
      destruct (step_losing ctx2 p2 Hvalid2 Hctx2 (call2 c) (world c) H2) as [Hst Hw];
        [rewrite Hdb; apply taken_after_first |].
      rewrite Hstep in Hst, Hw; cbn [fst snd] in Hst, Hw.
      apply race_first; cbn; [congruence | assumption | now rewrite Hsame].
    + destruct (step_winning ctx2 p2 tok2 Hctx2 (call2 c) (world c) H2) as [Hst Hw].
      rewrite Hstep in Hst, Hw; cbn [fst snd] in Hst, Hw.
      apply race_second; cbn; [congruence | assumption | assumption].
Qed.

Lemma run_race (sched : list Turn) :
  forall c, race c -> race (run ctx1 p1 ctx2 p2 sched c).
Proof.
  induction sched as [|t sched IH]; intros c Hc; [exact Hc |].
  apply (IH (turn ctx1 p1 ctx2 p2 c t)). now apply turn_race.
Qed.

Lemma run_remaining (sched : list Turn) :
  forall c,
    (remaining (call1 (run ctx1 p1 ctx2 p2 sched c))
     <= remaining (call1 c) - first_turns sched)%nat /\
    (remaining (call2 (run ctx1 p1 ctx2 p2 sched c))
     <= remaining (call2 c) - second_turns sched)%nat.
Proof.
  induction sched as [|t sched IH]; intros c.
  - cbn. lia.
  - change (run ctx1 p1 ctx2 p2 (t :: sched) c)
      with (run ctx1 p1 ctx2 p2 sched (turn ctx1 p1 ctx2 p2 c t)).
    destruct (IH (turn ctx1 p1 ctx2 p2 c t)) as [IH1 IH2].
    destruct t; unfold turn in *; cbn [first_turns second_turns].
    + pose proof (step_remaining NewService sec ctx1 p1 (call1 c) (world c)) as Hs.
      destruct (step ctx1 p1 (call1 c) (world c)) as [st w].
      cbn [fst call1 call2] in *. lia.
    + pose proof (step_remaining NewService sec ctx2 p2 (call2 c) (world c)) as Hs.
      destruct (step ctx2 p2 (call2 c) (world c)) as [st w].
      cbn [fst call1 call2] in *. lia.
Qed.
End TwoCalls.

(** Both probes run before either insert: the first call succeeds and the
    second is answered with [Internal], not [AlreadyExists].  When the
    calls run one after the other, the second is answered at its probe,
    before any insert of its own. *)
Lemma C6_counterexample :
  let start := Concurrent.mkConfig Concurrent.AtProbe Concurrent.AtProbe w_empty in
  let interleaved :=
    Concurrent.run (sec := sec_ref) ctx_ok signup_u ctx_ok' signup_u
      [Concurrent.First; Concurrent.Second; Concurrent.First;
       Concurrent.Second; Concurrent.First; Concurrent.Second] start in
  let serial :=
    Concurrent.run (sec := sec_ref) ctx_ok signup_u ctx_ok' signup_u
      [Concurrent.First; Concurrent.First; Concurrent.First; Concurrent.Second] start in
  Concurrent.call1 interleaved
  = Concurrent.Returned
      (Ok (API.mkCreateUserResponse
             (match security.NewToken (Package := sec_ref) (now ctx_ok) "u@x.com"
              with Some t => t | None => "" end))) /\
  Concurrent.call2 interleaved
  = Concurrent.Returned
      (Fail (errs.mkError errs.Internal "could not create user"
               [("create_user", "u@x.com")])) /\
  Concurrent.call2 serial
  = Concurrent.Returned
      (Fail (errs.mkError errs.AlreadyExists "email already exists"
               [("create_user", "u@x.com")])).
Proof.
  vm_compute. repeat split; reflexivity.
Qed.

(** C6, amended.  Two sign-ups for one valid email that is not in the
    table yet, both with healthy infrastructure, in any interleaving of
    their store and topic round trips that lets both finish: both return,
    exactly one returns its token, and exactly its row is added.  The
    other returns [AlreadyExists] when its probe ran after the winner's
    insert, and the [Internal] error "could not create user" when its
    insert met the uniqueness constraint. *)
Theorem C6_concurrent_signup
    (sec : security.Package) (ctx1 ctx2 : Infra) (p1 p2 : API.CreateUserParams)
    (tok1 tok2 : string) (w0 : World) (sched : list Concurrent.Turn) :
  API.cp_Email p1 = API.cp_Email p2 ->
  isValidEmail (API.cp_Email p1) = true ->
  Concurrent.healthy ctx1 = true ->
  Concurrent.healthy ctx2 = true ->
  sqldb.violates_unique (users w0) (new_row ctx1 p1) = false ->
  sqldb.violates_unique (users w0) (new_row ctx2 p2) = false ->
  security.NewToken (now ctx1) (API.cp_Email p1) = Some tok1 ->
  security.NewToken (now ctx2) (API.cp_Email p2) = Some tok2 ->
  (3 <= Concurrent.first_turns sched)%nat ->
  (3 <= Concurrent.second_turns sched)%nat ->
  exists (r1 r2 : Result API.CreateUserResponse) (wf : World),
    Concurrent.run ctx1 p1 ctx2 p2 sched
      (Concurrent.mkConfig Concurrent.AtProbe Concurrent.AtProbe w0)
    = Concurrent.mkConfig (Concurrent.Returned r1) (Concurrent.Returned r2) wf /\
    ((r1 = Ok (API.mkCreateUserResponse tok1) /\
      (r2 = Concurrent.already_exists (API.cp_Email p1) \/
       r2 = Concurrent.could_not_create (API.cp_Email p1)) /\
      users wf = users w0 ++ [new_row ctx1 p1]) \/
     (r2 = Ok (API.mkCreateUserResponse tok2) /\
      (r1 = Concurrent.already_exists (API.cp_Email p1) \/
       r1 = Concurrent.could_not_create (API.cp_Email p1)) /\
      users wf = users w0 ++ [new_row ctx2 p2])).
Proof.
  intros Hsame Hvalid Hctx1 Hctx2 Huniq1 Huniq2 Htok1 Htok2 Hn1 Hn2.
  set (c0 := Concurrent.mkConfig Concurrent.AtProbe Concurrent.AtProbe w0).
  destruct (run_remaining ctx1 ctx2 p1 p2 sched c0) as [Hr1 Hr2].
  assert (Hrace : Concurrent.Race (users w0) (API.cp_Email p1)
                    (new_row ctx1 p1) (new_row ctx2 p2) tok1 tok2
                    (Concurrent.run ctx1 p1 ctx2 p2 sched c0)).
  { apply run_race; auto.
    apply Concurrent.race_open; [reflexivity | constructor | constructor]. }
  destruct (Concurrent.run ctx1 p1 ctx2 p2 sched c0) as [st1 st2 wf].
  cbn [Concurrent.call1 Concurrent.call2 Concurrent.remaining c0] in Hr1, Hr2.
  destruct st1 as [ | | t1 | r1]; cbn in Hr1; try lia.
  destruct st2 as [ | | t2 | r2]; cbn in Hr2; try lia.
  exists r1, r2, wf. split; [reflexivity |].
  inversion Hrace as [c Hdb H1 H2 | c Hdb H1 H2 | c Hdb H1 H2]; subst c;
    cbn [Concurrent.call1 Concurrent.call2 Concurrent.world] in *.
  - inversion H1.
  - left. inversion H1; subst. split; [reflexivity |].
    split; [inversion H2; subst; auto | exact Hdb].
  - right. inversion H2; subst. split; [reflexivity |].
    split; [inversion H1; subst; auto | exact Hdb].
Qed.

Lemma C6_witness :
  exists (r1 r2 : Result API.CreateUserResponse) (wf : World),
    Concurrent.run (sec := sec_ref) ctx_ok signup_u ctx_ok' signup_u
      [Concurrent.First; Concurrent.Second; Concurrent.Second;
       Concurrent.First; Concurrent.First; Concurrent.Second]
      (Concurrent.mkConfig Concurrent.AtProbe Concurrent.AtProbe w_empty)
    = Concurrent.mkConfig (Concurrent.Returned r1) (Concurrent.Returned r2) wf /\
    ((r1 = Ok (API.mkCreateUserResponse
                 (match security.NewToken (Package := sec_ref) (now ctx_ok) "u@x.com"
                  with Some t => t | None => "" end)) /\
      (r2 = Concurrent.already_exists "u@x.com" \/
       r2 = Concurrent.could_not_create "u@x.com") /\
      users wf = users w_empty ++ [new_row ctx_ok signup_u]) \/
     (r2 = Ok (API.mkCreateUserResponse
                 (match security.NewToken (Package := sec_ref) (now ctx_ok') "u@x.com"
                  with Some t => t | None => "" end)) /\
      (r1 = Concurrent.already_exists "u@x.com" \/
       r1 = Concurrent.could_not_create "u@x.com") /\
      users wf = users w_empty ++ [new_row ctx_ok' signup_u])).
Proof.
  apply (C6_concurrent_signup sec_ref ctx_ok ctx_ok' signup_u signup_u).
  - reflexivity.
  - reflexivity.
  - reflexivity.
  - reflexivity.
  - reflexivity.
  - reflexivity.
  - vm_compute. reflexivity.
  - vm_compute. reflexivity.
  - cbn. lia.
  - cbn. lia.
Defined.

(** * Further properties of the code *)

#[local] Set Warnings "-clear-no-such-hyp".

(** ** Token validation and the auth handler *)

(** X1.  [ValidateToken] has three outcomes and the token package decides
    between them: it returns the email when the token parses, its claims
    are returned and they hold a string under "email"; it crashes when
    the token parses and the claims are returned but hold no string under
    "email"; it returns the [Internal] error "internal error", echoing
    the token in the error's metadata, when [ParseToken] or [GetClaims]
    fails. *)
Theorem X1_ValidateToken_outcomes
    (sec : security.Package) (ctx : Infra) (p : API.ValidateTokenParams) :
  (forall email : string,
      API.ValidateToken ctx p = Ok (API.mkValidateTokenResponse email) <->
      exists (t : security.Token) (m : gmap string security.ClaimValue),
        security.ParseToken (now ctx) (API.vp_Token p) = inr t /\
        security.GetClaims t = Some m /\
        m !! "email" = Some (security.CString email)) /\
  (API.ValidateToken ctx p = Panic <->
   exists (t : security.Token) (m : gmap string security.ClaimValue),
     security.ParseToken (now ctx) (API.vp_Token p) = inr t /\
     security.GetClaims t = Some m /\
     forall email : string, m !! "email" <> Some (security.CString email)) /\
  (forall e : errs.Error,
      API.ValidateToken ctx p = Fail e <->
      e = errs.mkError errs.Internal "internal error"
            [("validate_token", API.vp_Token p)] /\
      ((exists err, security.ParseToken (now ctx) (API.vp_Token p) = inl err) \/
       (exists t, security.ParseToken (now ctx) (API.vp_Token p) = inr t /\
                  security.GetClaims t = None))).
Proof.
  unfold API.ValidateToken, API.fail_with, errs.Err, errs.Msg, errs.WithCode,
    errs.WithMeta, errs.B.
  cbn [errs.Code errs.Message errs.Meta app].
  destruct (security.ParseToken (now ctx) (API.vp_Token p)) as [err | t] eqn:Hparse.
  - split; [| split].
    + intros email. split; [discriminate | intros (t & m & H & _); discriminate].
    + split; [discriminate | intros (t & m & H & _); discriminate].
    + intros e. split.
      * intros H. injection H as <-. split; [reflexivity | left; eauto].
      * intros [-> _]. reflexivity.
  - destruct (security.GetClaims t) as [m |] eqn:Hclaims.
    + split; [| split].
      * intros email. split.
        -- intros H. exists t, m. repeat split; auto.
           destruct (m !! "email") as [[s | | |] |]; try discriminate.
           injection H as ->. reflexivity.
        -- intros (t' & m' & Ht & Hm & Hemail).
           injection Ht as <-. rewrite Hclaims in Hm. injection Hm as <-.
           rewrite Hemail. reflexivity.
      * split.
        -- intros H. exists t, m. repeat split; auto.
           intros email Hemail. rewrite Hemail in H. discriminate.
        -- intros (t' & m' & Ht & Hm & Hemail).
           injection Ht as <-. rewrite Hclaims in Hm. injection Hm as <-.
           destruct (m !! "email") as [[s | | |] |]; try reflexivity.
           now destruct (Hemail s).
      * intros e. split.
        -- intros H. destruct (m !! "email") as [[s | | |] |]; discriminate.
        -- intros [_ [[err Herr] | (t' & Ht & Hnone)]]; [discriminate |].
           injection Ht as <-. congruence.
    + split; [| split].
      * intros email. split; [discriminate |].
        intros (t' & m' & Ht & Hm & _). injection Ht as <-. congruence.
      * split; [discriminate |].
        intros (t' & m' & Ht & Hm & _). injection Ht as <-. congruence.
      * intros e. split.
        -- intros H. injection H as <-. split; [reflexivity | right; eauto].
        -- intros [-> _]. reflexivity.
Qed.

(** X2.  [AuthHandler] resolves an identity exactly for a non-empty
    token from which [ValidateToken] extracts an email: the identifier is
    the UUID drawn for this request and the data carry that email. *)
Theorem X2_AuthHandler_accepts
    (sec : security.Package) (ctx : Infra) (token uid : string)
    (d : authentication.Data) :
  authentication.AuthHandler ctx token = Ok (uid, d) <->
  token <> "" /\
  uid = new_uuid ctx /\
  API.ValidateToken ctx (API.mkValidateTokenParams token)
  = Ok (API.mkValidateTokenResponse (authentication.d_Email d)).
Proof.
  unfold authentication.AuthHandler.
  destruct (String.eqb_spec token "") as [-> | Hne].
  - split; [discriminate | intros [H _]; congruence].
  - destruct (API.ValidateToken ctx (API.mkValidateTokenParams token))
      as [[email] | e |]; split; try discriminate.
    + intros H. injection H as <- <-. auto.
    + intros (_ & -> & H). injection H as ->. now destruct d.
    + intros (_ & _ & H). discriminate.
    + intros (_ & _ & H). discriminate.
Qed.

(** X3.  Every error of [AuthHandler] is the same value: code
    [Unauthenticated], message "invalid token", no metadata.  It is
    returned for the empty token, without consulting the token package,
    and for every error of [ValidateToken], whose [Internal] code and
    echoed token are dropped. *)
Theorem X3_AuthHandler_errors
    (sec : security.Package) (ctx : Infra) (token : string) (e : errs.Error) :
  authentication.AuthHandler ctx token = Fail e <->
  e = errs.mkError errs.Unauthenticated "invalid token" [] /\
  (token = "" \/
   exists e', API.ValidateToken ctx (API.mkValidateTokenParams token) = Fail e').
Proof.
  unfold authentication.AuthHandler.
  destruct (String.eqb_spec token "") as [-> | Hne].
  - split; [intros H; injection H as <-; auto | intros [-> _]; reflexivity].
  - destruct (API.ValidateToken ctx (API.mkValidateTokenParams token))
      as [[email] | e' |]; split; try discriminate.
    + intros [_ [H | [e' H]]]; [congruence | discriminate].
    + intros H. injection H as <-. eauto.
    + intros [-> _]. reflexivity.
    + intros [_ [H | [e' H]]]; [congruence | discriminate].
Qed.

(** What a successful [Auth] went through, for any user logic. *)
Lemma Auth_Ok_inv (a : UseCase) (sec : security.Package) (ctx : Infra)
    (w w' : World) (p : API.AuthParams) (r : API.AuthResponse) :
  API.Auth ctx w p = (Ok r, w') ->
  ValidateUser ctx (users w) (API.ap_Email p) (API.ap_Password p) = None /\
  security.NewToken (now ctx) (API.ap_Email p) = Some (API.ar_Token r) /\
  publish_fails ctx = false /\
  w' = mkWorld (users w) (auth_topic w ++ [mkAuthEvent (API.ap_Email p)]).
Proof.
  unfold API.Auth, API.fail_with, pubsub.Publish.
  destruct (ValidateUser _ _ _ _); [discriminate |].
  destruct (security.NewToken _ _) as [tok |]; [| discriminate].
  destruct (publish_fails ctx); [discriminate |].
  intros H. injection H as <- <-. auto.
Qed.

(** X4.  Log in, then call a protected endpoint: a non-empty token that
    [Auth] returned for a well-formed email is resolved by [AuthHandler],
    at any time before the token expires, to that email and to the UUID
    drawn for the request; this holds for every token package whose
    [ParseToken] and [GetClaims] read back what [NewToken] issued. *)
Theorem X4_login_then_AuthHandler
    (a : UseCase) (sec : security.Package) (RT : security.RoundTrip sec)
    (ctx ctx' : Infra) (w w' : World) (p : API.AuthParams) (token : string) :
  isValidEmail (API.ap_Email p) = true ->
  API.Auth ctx w p = (Ok (API.mkAuthResponse token), w') ->
  token <> "" ->
  now ctx <= now ctx' < now ctx + security.lifetime ->
  authentication.AuthHandler ctx' token
  = Ok (new_uuid ctx', authentication.mkData (API.ap_Email p)).
Proof.
  intros Hvalid Hauth Hne Hnow.
  apply Auth_Ok_inv in Hauth as (_ & Htok & _ & _). cbn [API.ar_Token] in Htok.
  destruct (security.verify_issue (now ctx) (now ctx') _ _ Hvalid Htok Hnow)
    as (t & m & Hparse & Hclaims & Hemail).
  unfold authentication.AuthHandler.
  destruct (String.eqb_spec token "") as [-> | _]; [congruence |].
  rewrite (ValidateToken_Ok ctx' token _ t m Hparse Hclaims Hemail). reflexivity.
Qed.

Lemma X4_witness :
  authentication.AuthHandler (sec := sec_ref) ctx_ok
    (match security.NewToken (Package := sec_ref) (now ctx_ok) "u@x.com"
     with Some t => t | None => "" end)
  = Ok (new_uuid ctx_ok, authentication.mkData "u@x.com").
Proof.
  refine (X4_login_then_AuthHandler NewService sec_ref
            (Reference_RoundTrip "signing-key" 3600 ltac:(lia))
            ctx_ok ctx_ok w_u
            (snd (API.Auth (sec := sec_ref) ctx_ok w_u login_u)) login_u _ _ _ _ _).
  - reflexivity.
  - vm_compute. reflexivity.
  - vm_compute. discriminate.
  - vm_compute. split; [discriminate | reflexivity].
Defined.

(** ** The user logic *)

(** When [ValidateUser] returns nil. *)
Lemma ValidateUser_nil_iff
    (ctx : Infra) (db : list User) (email password : string) :
  Service.ValidateUser ctx db email password = None <->
  query_fails ctx = false /\
  exists u, List.find (sqldb.by_email email) db = Some u /\
            u_Password u = Sha1.hex password.
Proof.
  unfold Service.ValidateUser, Service.ValidatePassword, sqldb.QueryRow_user.
  destruct (query_fails ctx); [naive_solver |].
  destruct (List.find (sqldb.by_email email) db) as [u |]; [| naive_solver].
  destruct (String.eqb_spec (Sha1.hex password) (u_Password u)) as [Heq | Hne];
    cbn [negb]; naive_solver.
Qed.

(** X5.  [ValidateUser] returns nil exactly when the store answers, a
    row with the email exists and the password column of the first such
    row is the hexadecimal SHA-1 of the submitted password.  Its errors
    tell the causes apart: a failed or empty lookup is wrapped into
    "invalid user %w", a wrong password gives the bare "invalid user". *)
Theorem X5_ValidateUser_outcomes
    (ctx : Infra) (db : list User) (email password : string) :
  (Service.ValidateUser ctx db email password = None <->
   query_fails ctx = false /\
   exists u, List.find (sqldb.by_email email) db = Some u /\
             u_Password u = Sha1.hex password) /\
  (Service.ValidateUser ctx db email password
   = Some (Errorf_w "invalid user %w" sqldb.Unavailable) <->
   query_fails ctx = true) /\
  (Service.ValidateUser ctx db email password
   = Some (Errorf_w "invalid user %w" sqldb.ErrNoRows) <->
   query_fails ctx = false /\ List.find (sqldb.by_email email) db = None) /\
  (Service.ValidateUser ctx db email password = Some (Errorf "invalid user") <->
   query_fails ctx = false /\
   exists u, List.find (sqldb.by_email email) db = Some u /\
             u_Password u <> Sha1.hex password).
Proof.
  unfold Service.ValidateUser, Service.ValidatePassword, sqldb.QueryRow_user.
  destruct (query_fails ctx).
  - naive_solver.
  - destruct (List.find (sqldb.by_email email) db) as [u |]; [| naive_solver].
    destruct (String.eqb_spec (Sha1.hex password) (u_Password u)) as [Heq | Hne];
      cbn [negb]; naive_solver.
Qed.

(** ** The table and the topic over histories of calls *)

Lemma filter_none {A : Type} (f : A -> bool) (l : list A) :
  List.existsb f l = false -> List.filter f l = [].
Proof.
  induction l as [|x l IH]; simpl; [reflexivity |].
  intros H. apply orb_false_iff in H as [-> Hl]. auto.
Qed.

Lemma email_count_snoc (email : string) (db : list User) (u : User) :
  email_count email (db ++ [u])
  = (email_count email db + (if sqldb.by_email email u then 1 else 0))%nat.
Proof.
  unfold email_count. rewrite List.filter_app, List.length_app. simpl.
  destruct (sqldb.by_email email u); reflexivity.
Qed.

(** A call of [CreateUser] leaves the table as it was or appends its own
    row, and appends it only after the probe found no row with the
    email. *)
Lemma CreateUser_users_cases (sec : security.Package) (ctx : Infra) (w : World)
    (p : API.CreateUserParams) :
  users (snd (API.CreateUser ctx w p)) = users w \/
  (users (snd (API.CreateUser ctx w p)) = users w ++ [new_row ctx p] /\
   List.existsb (sqldb.by_email (API.cp_Email p)) (users w) = false).
Proof.
  open_service. fold (new_row ctx p).
  destruct (negb _); cbn [snd users]; [now left |].
  destruct (query_fails ctx); cbn [snd users]; [now left |].
  destruct (List.existsb _ (users w)) eqn:Hex; cbn [snd users]; [now left |].
  destruct (exec_fails ctx); cbn [snd users]; [now left |].
  destruct (sqldb.violates_unique _ _); cbn [snd users]; [now left |].
  destruct (security.NewToken _ _); [destruct (publish_fails ctx) |];
    cbn [snd users]; right; auto.
Qed.

Lemma CreateUser_keeps_unique (sec : security.Package) (ctx : Infra) (w : World)
    (p : API.CreateUserParams) :
  (forall e, email_count e (users w) <= 1)%nat ->
  (forall e, email_count e (users (snd (API.CreateUser ctx w p))) <= 1)%nat.
Proof.
  intros Huniq e.
  destruct (CreateUser_users_cases sec ctx w p) as [-> | [-> Hfresh]];
    [apply Huniq |].
  rewrite email_count_snoc.
  destruct (sqldb.by_email e (new_row ctx p)) eqn:He.
  - unfold sqldb.by_email, new_row in He. cbn [u_Email] in He.
    apply String.eqb_eq in He. subst e.
    unfold email_count. rewrite (filter_none _ _ Hfresh). simpl. lia.
  - specialize (Huniq e). lia.
Qed.

(** X6.  Emails stay unique: if no email has more than one row, then
    after any history of [Auth] and [CreateUser] calls, with any
    infrastructure behaviour, still no email has more than one row. *)
Theorem X6_emails_stay_unique
    (sec : security.Package) (cs : list Call) (w : World) :
  (forall e, email_count e (users w) <= 1)%nat ->
  (forall e, email_count e (users (exec_calls cs w)) <= 1)%nat.
Proof.
  revert w. induction cs as [|c cs IH]; intros w Huniq; [exact Huniq |].
  change (exec_calls (c :: cs) w) with (exec_calls cs (exec_call w c)).
  apply IH. destruct c as [ctx p | ctx p]; cbn [exec_call].
  - rewrite Auth_users. exact Huniq.
  - now apply CreateUser_keeps_unique.
Qed.

Lemma X6_witness :
  (email_count "u@x.com"
     (users (exec_calls (sec := sec_ref)
               [CallCreateUser ctx_ok' signup_u; CallCreateUser ctx_ok' signup_v;
                CallAuth ctx_ok login_u; CallCreateUser ctx_ok signup_v] w_u))
   <= 1)%nat.
Proof.
  apply (X6_emails_stay_unique sec_ref).
  intros e. unfold email_count, w_u. cbn [users List.filter].
  destruct (sqldb.by_email e _); simpl; lia.
Defined.

(** X7.  Accounts are never removed, changed or shadowed: the row that
    the lookup by email returns is still the row it returns after any
    history of [Auth] and [CreateUser] calls. *)
Theorem X7_accounts_persist
    (sec : security.Package) (cs : list Call) (w : World) (email : string) (u : User) :
  List.find (sqldb.by_email email) (users w) = Some u ->
  List.find (sqldb.by_email email) (users (exec_calls cs w)) = Some u.
Proof.
  intros Hfind. destruct (exec_calls_users cs w) as [rows ->].
  now apply find_app_Some.
Qed.

Lemma X7_witness :
  List.find (sqldb.by_email "u@x.com")
    (users (exec_calls (sec := sec_ref)
              [CallCreateUser ctx_ok' signup_u; CallCreateUser ctx_ok' signup_v] w_u))
  = Some (mkUser "7c9e6679-7425-40de-944b-e07fc1f90ae7" "u@x.com"
            "1a91d62f7ca67399625a4368a6ab5d4a3baa6073" "A" "B").
Proof.
  apply (X7_accounts_persist sec_ref). reflexivity.
Defined.

(** X8.  One event per success: [Auth] and [CreateUser] append to the
    topic exactly one [AuthEvent], carrying the email of the request,
    when they return a token, and leave the topic as it was when they
    return an error; this holds for any user logic and token package. *)
Theorem X8_one_event_per_success
    (a : UseCase) (sec : security.Package) (ctx : Infra) (w : World) :
  (forall p : API.AuthParams,
      auth_topic (snd (API.Auth ctx w p))
      = auth_topic w ++
        (if call_succeeded (fst (API.Auth ctx w p))
         then [mkAuthEvent (API.ap_Email p)] else [])) /\
  (forall p : API.CreateUserParams,
      auth_topic (snd (API.CreateUser ctx w p))
      = auth_topic w ++
        (if call_succeeded (fst (API.CreateUser ctx w p))
         then [mkAuthEvent (API.cp_Email p)] else [])).
Proof.
  split; intros p.
  - unfold API.Auth, API.fail_with, pubsub.Publish.
    destruct (ValidateUser _ _ _ _); cbn; [now rewrite List.app_nil_r |].
    destruct (security.NewToken _ _); cbn; [| now rewrite List.app_nil_r].
    destruct (publish_fails ctx); cbn; [now rewrite List.app_nil_r | reflexivity].
  - unfold API.CreateUser, API.fail_with, pubsub.Publish.
    destruct (negb _); cbn; [now rewrite List.app_nil_r |].
    destruct (UserExists _ _ _) as [[|] [err|]]; cbn;
      try now rewrite List.app_nil_r.
    destruct (CreateUser _ _ _ _ _ _) as [[err|] db]; cbn;
      [now rewrite List.app_nil_r |].
    destruct (security.NewToken _ _); cbn; [| now rewrite List.app_nil_r].
    destruct (publish_fails ctx); cbn; [now rewrite List.app_nil_r | reflexivity].
Qed.

(** X9.  The error codes of the endpoints: [Auth] never crashes and its
    errors carry [Unauthenticated] or [Internal]; [CreateUser] never
    crashes and its errors carry [InvalidArgument], [AlreadyExists] or
    [Internal]; the metadata of every such error is the one pair of the
    endpoint's key and the submitted email.  This holds for any user
    logic and token package. *)
Theorem X9_endpoint_error_codes
    (a : UseCase) (sec : security.Package) (ctx : Infra) (w : World) :
  (forall p : API.AuthParams,
      match fst (API.Auth ctx w p) with
      | Ok _ => True
      | Fail e =>
          (errs.Code e = errs.Unauthenticated \/ errs.Code e = errs.Internal) /\
          errs.Meta e = [("auth", API.ap_Email p)]
      | Panic => False
      end) /\
  (forall p : API.CreateUserParams,
      match fst (API.CreateUser ctx w p) with
      | Ok _ => True
      | Fail e =>
          (errs.Code e = errs.InvalidArgument \/ errs.Code e = errs.AlreadyExists \/
           errs.Code e = errs.Internal) /\
          errs.Meta e = [("create_user", API.cp_Email p)]
      | Panic => False
      end).
Proof.
  split; intros p.
  - unfold API.Auth, API.fail_with, pubsub.Publish.
    destruct (ValidateUser _ _ _ _); cbn; [auto |].
    destruct (security.NewToken _ _); cbn; [| auto].
    destruct (publish_fails ctx); cbn; auto.
  - unfold API.CreateUser, API.fail_with, pubsub.Publish.
    destruct (negb _); cbn; [auto |].
    destruct (UserExists _ _ _) as [[|] [err|]]; cbn; auto.
    destruct (CreateUser _ _ _ _ _ _) as [[err|] db]; cbn; [auto |].
    destruct (security.NewToken _ _); cbn; [| auto].
    destruct (publish_fails ctx); cbn; auto.
Qed.

(** ** When the endpoints return a token *)

(** X10.  [Auth] returns a token in exactly one situation: the store
    answers, the first row with the submitted email holds the hexadecimal
    SHA-1 of the submitted password, [NewToken] issues the token and the
    publish succeeds; the table is then unchanged and the topic holds one
    more event. *)
Theorem X10_Auth_succeeds_iff
    (sec : security.Package) (ctx : Infra) (w w' : World)
    (p : API.AuthParams) (token : string) :
  API.Auth ctx w p = (Ok (API.mkAuthResponse token), w') <->
  query_fails ctx = false /\
  (exists u, List.find (sqldb.by_email (API.ap_Email p)) (users w) = Some u /\
             u_Password u = Sha1.hex (API.ap_Password p)) /\
  security.NewToken (now ctx) (API.ap_Email p) = Some token /\
  publish_fails ctx = false /\
  w' = mkWorld (users w) (auth_topic w ++ [mkAuthEvent (API.ap_Email p)]).
Proof.
  split.
  - intros H. apply Auth_Ok_inv in H as (Hv & Htok & Hpub & ->).
    cbn [ValidateUser NewService] in Hv.
    apply (proj1 (ValidateUser_nil_iff ctx (users w) _ _)) in Hv
      as [Hq Hu].
    auto.
  - intros (Hq & (u & Hfind & Hpw) & Htok & Hpub & ->).
    destruct p as [email password]. cbn [API.ap_Email API.ap_Password] in *.
    now apply (Auth_Ok ctx w email password token u).
Qed.

(** X11.  [CreateUser] returns a token in exactly one situation: the
    email is well formed, the store answers the probe and the insert,
    the table holds neither the email nor the drawn identifier,
    [NewToken] issues the token and the publish succeeds; the table then
    holds one more row, made of the drawn identifier, the email, the
    hexadecimal SHA-1 of the password and the two names, and the topic
    one more event. *)
Theorem X11_CreateUser_succeeds_iff
    (sec : security.Package) (ctx : Infra) (w w' : World)
    (p : API.CreateUserParams) (token : string) :
  API.CreateUser ctx w p = (Ok (API.mkCreateUserResponse token), w') <->
  isValidEmail (API.cp_Email p) = true /\
  Concurrent.healthy ctx = true /\
  sqldb.violates_unique (users w) (new_row ctx p) = false /\
  security.NewToken (now ctx) (API.cp_Email p) = Some token /\
  w' = mkWorld (users w ++ [new_row ctx p])
               (auth_topic w ++ [mkAuthEvent (API.cp_Email p)]).
Proof.
  unfold Concurrent.healthy. open_service. fold (new_row ctx p). split.
  - destruct (isValidEmail (API.cp_Email p)); cbn [negb]; [| discriminate].
    destruct (query_fails ctx); [discriminate |].
    destruct (List.existsb _ (users w)); [discriminate |].
    destruct (exec_fails ctx); [discriminate |].
    destruct (sqldb.violates_unique _ _); [discriminate |].
    destruct (security.NewToken _ _) as [tok |]; [| discriminate].
    destruct (publish_fails ctx); [discriminate |].
    intros H. injection H as <- <-. auto.
  - intros (Hvalid & Hctx & Huniq & Htok & ->).
    pose proof (violates_unique_email _ _ Huniq) as Hfresh.
    cbn [new_row u_Email] in Hfresh.
    destruct (query_fails ctx), (exec_fails ctx), (publish_fails ctx);
      try discriminate.
    rewrite Hvalid, Hfresh, Huniq, Htok. reflexivity.
Qed.

(** ** What is stored for a password *)

Lemma hexdigit_below_16 (k : nat) :
  (k < 16)%nat -> is_lower_hex (Sha1.hexdigit (Z.of_nat k)) = true.
Proof.
  intros Hk. do 16 (destruct k as [|k]; [reflexivity |]). lia.
Qed.

Lemma hexdigit_lower_hex (x : Z) :
  is_lower_hex (Sha1.hexdigit (Z.land x 15)) = true.
Proof.
  change 15 with (Z.ones 4). rewrite Z.land_ones by lia.
  pose proof (Z.mod_pos_bound x (2 ^ 4) ltac:(lia)) as Hn.
  rewrite <- (Z2Nat.id (x mod 2 ^ 4)) by lia.
  apply hexdigit_below_16. lia.
Qed.

Lemma hex32_lower_hex (w : Z) (k : string) :
  Regexp.all_bytes is_lower_hex (Sha1.hex32 w k) = Regexp.all_bytes is_lower_hex k.
Proof.
  unfold Sha1.hex32. cbn [Regexp.all_bytes].
  rewrite !hexdigit_lower_hex. reflexivity.
Qed.

Lemma sha1_hex_lower_hex (password : string) :
  Regexp.all_bytes is_lower_hex (Sha1.hex password) = true.
Proof.
  unfold Sha1.hex, Sha1.hex_of_state.
  destruct (Sha1.sum _) as [[[[h0 h1] h2] h3] h4].
  rewrite !hex32_lower_hex. reflexivity.
Qed.

(** X12.  Whatever the password, also the empty one, the row that
    [Service.CreateUser] inserts holds in its password column 40
    lower-case hexadecimal digits, and [ValidatePassword] accepts that
    row for that password. *)
Theorem X12_stored_digest_format
    (ctx : Infra) (db db' : list User) (email password firstName lastName : string) :
  Service.CreateUser ctx db email password firstName lastName = (None, db') ->
  exists u : User,
    db' = db ++ [u] /\
    u_Email u = email /\
    String.length (u_Password u) = 40%nat /\
    Regexp.all_bytes is_lower_hex (u_Password u) = true /\
    Service.ValidatePassword ctx u password = None.
Proof.
  unfold Service.CreateUser, sqldb.Exec_insert.
  destruct (exec_fails ctx); [discriminate |].
  destruct (sqldb.violates_unique _ _); [discriminate |].
  intros H. injection H as <-.
  eexists. split; [reflexivity |]. cbn [u_Email u_Password].
  split; [reflexivity |].
  split; [apply sha1_hex_length |].
  split; [apply sha1_hex_lower_hex |].
  unfold Service.ValidatePassword. cbn [u_Password].
  now rewrite String.eqb_refl.
Qed.

Lemma X12_witness :
  exists u : User,
    users w_u ++ [new_row ctx_ok' (API.mkCreateUserParams "w@z.io" "" "E" "F")]
    = users w_u ++ [u] /\
    u_Email u = "w@z.io" /\
    String.length (u_Password u) = 40%nat /\
    Regexp.all_bytes is_lower_hex (u_Password u) = true /\
    Service.ValidatePassword ctx_ok' u "" = None.
Proof.
  apply (X12_stored_digest_format ctx_ok' (users w_u) _ "w@z.io" "" "E" "F").
  reflexivity.
Defined.

(** ** What an accepted email is made of *)

Lemma all_bytes_append (f : ascii -> bool) (s1 s2 : string) :
  Regexp.all_bytes f (s1 +:+ s2) = Regexp.all_bytes f s1 && Regexp.all_bytes f s2.
Proof.
  induction s1 as [|c s1 IH]; simpl; [reflexivity |].
  now rewrite IH, andb_assoc.
Qed.

Lemma all_bytes_weaken (f g : ascii -> bool) (s : string) :
  (forall c, f c = true -> g c = true) ->
  Regexp.all_bytes f s = true -> Regexp.all_bytes g s = true.
Proof.
  intros Hfg. induction s as [|c s IH]; simpl; [reflexivity |].
  intros H. apply andb_true_iff in H as [Hc Hs]. now rewrite (Hfg c Hc), IH.
Qed.

Lemma occurrences_append (c : ascii) (s1 s2 : string) :
  occurrences c (s1 +:+ s2) = (occurrences c s1 + occurrences c s2)%nat.
Proof.
  induction s1 as [|c1 s1 IH]; simpl; [reflexivity |]. rewrite IH. lia.
Qed.

Lemma occurrences_none (f : ascii -> bool) (c : ascii) (s : string) :
  f c = false -> Regexp.all_bytes f s = true -> occurrences c s = 0%nat.
Proof.
  intros Hc. induction s as [|c1 s IH]; simpl; [reflexivity |].
  intros H. apply andb_true_iff in H as [Hc1 Hs].
  destruct (Ascii.eqb_spec c1 c) as [-> | _]; [congruence | auto].
Qed.

Lemma domain_in_local (c : ascii) :
  Regexp.in_class cls_domain c = true -> Regexp.in_class cls_local c = true.
Proof.
  unfold Regexp.in_class, cls_domain, cls_local. cbn [List.existsb].
  intros H. repeat (apply orb_true_iff in H as [H | H]); rewrite ?H;
    rewrite ?orb_true_r; try reflexivity; discriminate.
Qed.

Lemma alpha_in_local (c : ascii) :
  Regexp.in_class cls_alpha c = true -> Regexp.in_class cls_local c = true.
Proof.
  unfold Regexp.in_class, cls_alpha, cls_local. cbn [List.existsb].
  intros H. repeat (apply orb_true_iff in H as [H | H]); rewrite ?H;
    rewrite ?orb_true_r; try reflexivity; discriminate.
Qed.

Lemma local_is_email_byte (c : ascii) :
  Regexp.in_class cls_local c = true -> email_byte c = true.
Proof. unfold email_byte. now intros ->. Qed.

(** X13.  Every email that [isValidEmail] accepts has at least six
    bytes, exactly one [@], and consists only of ASCII letters, digits
    and the bytes [._%+-@]: no space, control byte, quote or byte outside
    ASCII gets through. *)
Theorem X13_accepted_email_bytes (email : string) :
  isValidEmail email = true ->
  (6 <= String.length email)%nat /\
  occurrences "@" email = 1%nat /\
  Regexp.all_bytes email_byte email = true.
Proof.
  intros H. apply isValidEmail_shape in H
    as (l & d & t & -> & Hl & Hlc & Hd & Hdc & Ht & Htc).
  assert (Hat : forall s, Regexp.all_bytes (Regexp.in_class cls_local) s = true ->
                          occurrences "@" s = 0%nat)
    by (intros s; apply occurrences_none; reflexivity).
  pose proof (all_bytes_weaken _ _ d domain_in_local Hdc) as Hdl.
  pose proof (all_bytes_weaken _ _ t alpha_in_local Htc) as Htl.
  repeat split.
  - rewrite !length_append. cbn [String.length].
    destruct l; [congruence |]. destruct d; [congruence |]. cbn [String.length]. lia.
  - rewrite !occurrences_append, (Hat l Hlc), (Hat d Hdl), (Hat t Htl). reflexivity.
  - rewrite !all_bytes_append.
    rewrite (all_bytes_weaken _ _ l local_is_email_byte Hlc).
    rewrite (all_bytes_weaken _ _ d local_is_email_byte Hdl).
    rewrite (all_bytes_weaken _ _ t local_is_email_byte Htl).
    reflexivity.
Qed.

Lemma X13_witness :
  (6 <= String.length "a@b.co")%nat /\
  occurrences "@" "a@b.co" = 1%nat /\
  Regexp.all_bytes email_byte "a@b.co" = true.
Proof. apply X13_accepted_email_bytes. reflexivity. Defined.

(** ** The probe *)

(** X14.  [UserExists] agrees with the lookup of [ValidateUser]: with
    the store answering it reports [true] exactly when the lookup by that
    email returns a row, and [false], without an error, exactly when the
    lookup ends in [ErrNoRows]; with the store failing it returns [false]
    together with the wrapped error. *)
Theorem X14_UserExists_agrees_with_lookup
    (ctx : Infra) (db : list User) (email : string) :
  (Service.UserExists ctx db email = (true, None) <->
   exists u, sqldb.QueryRow_user ctx db email = inr u) /\
  (Service.UserExists ctx db email = (false, None) <->
   sqldb.QueryRow_user ctx db email = inl sqldb.ErrNoRows) /\
  (Service.UserExists ctx db email
   = (false, Some (Errorf_w "could not check if user exists: %w" sqldb.Unavailable)) <->
   query_fails ctx = true).
Proof.
  unfold Service.UserExists, sqldb.QueryRow_exists, sqldb.QueryRow_user.
  destruct (query_fails ctx); [naive_solver |].
  destruct (List.existsb (sqldb.by_email email) db) eqn:Hex.
  - destruct (List.find (sqldb.by_email email) db) as [u |] eqn:Hfind;
      [naive_solver |].
    apply existsb_find_None in Hfind. congruence.
  - apply existsb_find_None in Hex. rewrite Hex. naive_solver.
Qed.

(** X15.  A taken email stays taken: once a row with an email exists,
    every later [CreateUser] for that email, after any history of calls
    and whenever the store answers the probe, returns [AlreadyExists] and
    changes nothing. *)
Theorem X15_taken_email_stays_taken
    (sec : security.Package) (cs : list Call) (w : World) (ctx : Infra)
    (p : API.CreateUserParams) :
  isValidEmail (API.cp_Email p) = true ->
  List.existsb (sqldb.by_email (API.cp_Email p)) (users w) = true ->
  query_fails ctx = false ->
  API.CreateUser ctx (exec_calls cs w) p
  = (Fail (errs.mkError errs.AlreadyExists "email already exists"
             [("create_user", API.cp_Email p)]), exec_calls cs w).
Proof.
  intros Hvalid Htaken Hq.
  assert (Hlater : List.existsb (sqldb.by_email (API.cp_Email p))
                     (users (exec_calls cs w)) = true).
  { destruct (exec_calls_users cs w) as [rows ->].
    rewrite List.existsb_app, Htaken. reflexivity. }
  open_service. rewrite Hvalid, Hq, Hlater. reflexivity.
Qed.

Lemma X15_witness :
  API.CreateUser (sec := sec_ref) ctx_ok
    (exec_calls (sec := sec_ref)
       [CallCreateUser ctx_ok' signup_v; CallAuth ctx_ok login_u] w_u)
    signup_u
  = (Fail (errs.mkError errs.AlreadyExists "email already exists"
             [("create_user", "u@x.com")]),
     exec_calls (sec := sec_ref)
       [CallCreateUser ctx_ok' signup_v; CallAuth ctx_ok login_u] w_u).
Proof.
  apply (X15_taken_email_stays_taken sec_ref
           [CallCreateUser ctx_ok' signup_v; CallAuth ctx_ok login_u]
           w_u ctx_ok signup_u); reflexivity.
Defined.
